(** * StockAgent: the tool-call session and its calculation service

    A shallow embedding of [StockAgent.py] (the session driver, the tool
    dispatcher, the search-result extractor and the positional slot
    mapper) and of [server.py] (the four arithmetic endpoints), followed
    by the properties the design document states about them.

    Conventions of the embedding:
    - a Python [float] is an IEEE-754 binary64 value, modelled by
      [spec_float] at precision 53 and maximal exponent 1024; the real
      number a float stands for is a rational of [Q], and [rounded]
      says when a float is a rational number rounded to binary64;
    - a Python [str] is a [string]; the only characters the code inspects
      are ASCII ([$], [.], the digits), so a UTF-8 reading is harmless;
    - a decoded JSON document (and a Python list or dict built from one)
      is a [json] value; a dict is an association list in insertion order
      whose first binding of a key is the live one;
    - a Python exception is a value of [exn], and code that may raise
      returns [res]. *)

From Stdlib Require Import ZArith List String Ascii Bool Lia.
From Stdlib Require Import QArith Qabs Lqa Qpower.
From Stdlib Require Import Floats.SpecFloat.
From Stdlib Require Import DecimalString.
Import ListNotations.
Open Scope string_scope.
Open Scope Z_scope.

(** ** Floating-point numbers *)

Module Float.

Definition prec : Z := 53.
Definition emax : Z := 1024.

Definition float := spec_float.

Definition add : float -> float -> float := SFadd prec emax.
Definition sub : float -> float -> float := SFsub prec emax.
Definition mul : float -> float -> float := SFmul prec emax.
Definition div : float -> float -> float := SFdiv prec emax.
Definition abs : float -> float := SFabs.
Definition ltb : float -> float -> bool := SFltb.
Definition eqb : float -> float -> bool := SFeqb.
Definition valid : float -> bool := valid_binary prec emax.

Definition zero : float := S754_zero false.

(** [float(n)] for a Python int: the integer rounded once to binary64. *)
Definition of_Z (n : Z) : float := binary_normalize prec emax n 0 false.

(** The quotient [n / 10^k] of two integers rounded once to binary64;
    this is the value [float] gives to a decimal literal with digits [n]
    and [k] digits after the point. *)
Definition of_decimal (n : Z) (k : nat) : float :=
  match n with
  | Zpos p =>
      div (S754_finite false p 0)
          (S754_finite false (Z.to_pos (10 ^ Z.of_nat k)) 0)
  | _ => zero
  end.

(** Python's truth value of a float: [x != 0.0]; a NaN is true. *)
Definition is_zero (x : float) : bool :=
  match x with S754_zero _ => true | _ => false end.

Definition is_nan (x : float) : bool :=
  match x with S754_nan => true | _ => false end.

(** *** [format(x, ".2f")]

    The exact value of [x] is rounded half-to-even to a multiple of
    1/100 and printed with two digits after the point. *)

Definition round_half_even (n d : Z) : Z :=
  let q := n / d in
  let r := n mod d in
  match 2 * r ?= d with
  | Lt => q
  | Gt => q + 1
  | Eq => if Z.even q then q else q + 1
  end.

Definition hundredths (m : positive) (e : Z) : Z :=
  match e with
  | Zneg p => round_half_even (Zpos m * 100) (2 ^ Zpos p)
  | _ => Zpos m * 2 ^ e * 100
  end.

Definition string_of_nat_Z (n : Z) : string :=
  NilZero.string_of_uint (N.to_uint (Z.to_N n)).

Definition two_digits (n : Z) : string :=
  if n <? 10 then "0" ++ string_of_nat_Z n else string_of_nat_Z n.

Definition fixed2 (h : Z) : string :=
  string_of_nat_Z (h / 100) ++ "." ++ two_digits (h mod 100).

Definition sign_prefix (s : bool) : string := if s then "-" else "".

Definition format_2f (x : float) : string :=
  match x with
  | S754_nan => "nan"
  | S754_infinity s => sign_prefix s ++ "inf"
  | S754_zero s => sign_prefix s ++ "0.00"
  | S754_finite s m e => sign_prefix s ++ fixed2 (hundredths m e)
  end.

End Float.

Set Warnings "-register-all".
Definition float : Type := Float.float.

(** ** JSON values, Python exceptions *)

Inductive json : Type :=
  | JNull
  | JBool (b : bool)
  | JInt (n : Z)
  | JFloat (x : float)
  | JStr (s : string)
  | JArr (items : list json)
  | JObj (fields : list (string * json)).

Inductive exn : Type :=
  | KeyError (key : string)
  | TypeError
  | AttributeError
  | ValueError
  | ZeroDivisionError.

Inductive res (A : Type) : Type :=
  | Ok (a : A)
  | Raise (e : exn).
Arguments Ok {A} a.
Arguments Raise {A} e.

Definition res_bind {A B} (m : res A) (k : A -> res B) : res B :=
  match m with
  | Ok a => k a
  | Raise e => Raise e
  end.

Definition raises {A} (m : res A) : bool :=
  match m with Ok _ => false | Raise _ => true end.

(** ** The fragment of Python the sources use *)

Module Py.

Fixpoint assoc (k : string) (fs : list (string * json)) : option json :=
  match fs with
  | [] => None
  | (k', v) :: fs' => if String.eqb k k' then Some v else assoc k fs'
  end.

(** A byte [10xxxxxx] of the UTF-8 reading: it continues the character
    that the byte before it began. *)
Definition is_continuation (c : ascii) : bool :=
  let n := N_of_ascii c in (128 <=? n)%N && (n <? 192)%N.

Definition starts_with_continuation (s : string) : bool :=
  match s with
  | String c _ => is_continuation c
  | EmptyString => false
  end.

(** The characters (code points) of [s], each with all its bytes. *)
Fixpoint groups (s : string) : list string :=
  match s with
  | EmptyString => []
  | String c s' =>
      match groups s' with
      | g :: rest =>
          if starts_with_continuation s'
          then String c g :: rest
          else String c EmptyString :: g :: rest
      | [] => [String c EmptyString]
      end
  end.

(** [s[0], s[1], ...]: the one-character strings of [s]. *)
Definition chars (s : string) : list json := map JStr (groups s).

(** [k in s] for two strings: [k] occurs in [s]. *)
Fixpoint contains (k s : string) : bool :=
  if String.prefix k s then true
  else match s with
       | EmptyString => false
       | String _ s' => contains k s'
       end.

Definition is_str (k : string) (v : json) : bool :=
  match v with JStr s => String.eqb k s | _ => false end.

(** [d.get(k, default)]; only a dict has the method. *)
Definition get (d : json) (k : string) (default : json) : res json :=
  match d with
  | JObj fs => Ok match assoc k fs with Some v => v | None => default end
  | _ => Raise AttributeError
  end.

(** [for x in v]: the items of a list, the keys of a dict, the
    characters of a string. *)
Definition iter (v : json) : res (list json) :=
  match v with
  | JArr items => Ok items
  | JObj fs => Ok (map (fun kv => JStr (fst kv)) fs)
  | JStr s => Ok (chars s)
  | _ => Raise TypeError
  end.

(** [k in v] for a string key [k]. *)
Definition contains_key (k : string) (v : json) : res bool :=
  match v with
  | JObj fs => Ok match assoc k fs with Some _ => true | None => false end
  | JArr items => Ok (existsb (is_str k) items)
  | JStr s => Ok (contains k s)
  | _ => Raise TypeError
  end.

(** [v[k]] for a string key [k]. *)
Definition getitem (v : json) (k : string) : res json :=
  match v with
  | JObj fs =>
      match assoc k fs with Some x => Ok x | None => Raise (KeyError k) end
  | _ => Raise TypeError
  end.

(** [sep.join(texts)]; every item has to be a string. *)
Fixpoint join (sep : string) (texts : list json) : res string :=
  match texts with
  | [] => Ok ""
  | [JStr s] => Ok s
  | JStr s :: rest => res_bind (join sep rest) (fun t => Ok (s ++ sep ++ t))
  | _ :: _ => Raise TypeError
  end.

End Py.

Notation "x <- m ;; k" := (res_bind m (fun x => k))
  (at level 61, m at next level, right associativity).

(** ** [server.py]: the calculation endpoints *)

Module Server.

(** Python's [x / y] on floats raises on a zero divisor (of either sign)
    and is the IEEE quotient otherwise. *)
Definition truediv (x y : float) : res float :=
  if Float.is_zero y then Raise ZeroDivisionError else Ok (Float.div x y).

Module PriceReturnInput.
Record t := { initial_price : float; final_price : float }.
End PriceReturnInput.

Definition calc_price_return (data : PriceReturnInput.t) : res json :=
  let initial := PriceReturnInput.initial_price data in
  let final := PriceReturnInput.final_price data in
  q <- truediv (Float.sub final initial) initial ;;
  Ok (JObj [("price_return", JFloat (Float.mul q (Float.of_Z 100)))]).

Module DividendInput.
Record t := { dividend_total : float; initial_price : float }.
End DividendInput.

Definition calc_dividend_yield (data : DividendInput.t) : res json :=
  q <- truediv (DividendInput.dividend_total data)
               (DividendInput.initial_price data) ;;
  Ok (JObj [("dividend_yield", JFloat (Float.mul q (Float.of_Z 100)))]).

Module TotalReturnInput.
Record t := { price_return : float; dividend_yield : float }.
End TotalReturnInput.

Definition calc_total_return (data : TotalReturnInput.t) : res json :=
  Ok (JObj [("total_return",
             JFloat (Float.add (TotalReturnInput.price_return data)
                               (TotalReturnInput.dividend_yield data)))]).

Module CompareInput.
Record t := {
  stock_a_name : string;
  stock_a_return : float;
  stock_b_name : string;
  stock_b_return : float
}.
End CompareInput.

(** The two locals of [compare]. *)
Definition compare_diff (data : CompareInput.t) : float :=
  Float.sub (CompareInput.stock_a_return data)
            (CompareInput.stock_b_return data).

Definition compare_winner (data : CompareInput.t) : string :=
  if Float.ltb (Float.of_Z 0) (compare_diff data)
  then CompareInput.stock_a_name data
  else CompareInput.stock_b_name data.

Definition compare_summary (data : CompareInput.t) : string :=
  compare_winner data ++ " outperformed by "
  ++ Float.format_2f (Float.abs (compare_diff data))
  ++ "%. Total returns were: "
  ++ CompareInput.stock_a_name data ++ " = "
  ++ Float.format_2f (CompareInput.stock_a_return data) ++ "%, "
  ++ CompareInput.stock_b_name data ++ " = "
  ++ Float.format_2f (CompareInput.stock_b_return data) ++ "%.".

Definition compare (data : CompareInput.t) : res json :=
  Ok (JObj [("summary", JStr (compare_summary data))]).

End Server.

(** ** [StockAgent.py]: the search-result extractor *)

Module Re.

Definition is_digit (c : ascii) : bool :=
  let n := N_of_ascii c in (48 <=? n)%N && (n <=? 57)%N.

(** The longest prefix of digits, and what follows it: [[0-9]*]. *)
Fixpoint span_digits (s : string) : string * string :=
  match s with
  | String c s' =>
      if is_digit c
      then let (ds, r) := span_digits s' in (String c ds, r)
      else ("", s)
  | EmptyString => ("", "")
  end.

(** What the optional group [(?:\.[0-9]{1,2})?] takes at the head of
    [s]: a point with two digits, else a point with one, else nothing. *)
Definition fraction (s : string) : string :=
  match s with
  | String "." (String d1 r) =>
      if is_digit d1 then
        match r with
        | String d2 _ =>
            if is_digit d2
            then String "." (String d1 (String d2 ""))
            else String "." (String d1 "")
        | EmptyString => String "." (String d1 "")
        end
      else ""
  | _ => ""
  end.

(** Group 1 of a match of [\$([0-9]+(?:\.[0-9]{1,2})?)] anchored at the
    head of [s]. *)
Definition match_at (s : string) : option string :=
  match s with
  | String "$" s1 =>
      match span_digits s1 with
      | (EmptyString, _) => None
      | (ds, r) => Some (ds ++ fraction r)
      end
  | _ => None
  end.

(** [re.findall]: the matches from left to right, none overlapping.
    [skip] counts the characters of the last match still to pass. *)
Fixpoint findall_from (skip : nat) (s : string) : list string :=
  match s with
  | EmptyString => []
  | String _ s' =>
      match skip with
      | S k => findall_from k s'
      | O =>
          match match_at s with
          | Some g => g :: findall_from (String.length g) s'
          | None => findall_from 0 s'
          end
      end
  end.

Definition findall (s : string) : list string := findall_from 0 s.

End Re.

Fixpoint digits_value (acc : Z) (s : string) : Z :=
  match s with
  | EmptyString => acc
  | String c s' =>
      digits_value (10 * acc + (Z.of_N (N_of_ascii c) - 48)) s'
  end.

(** [float(s)] on the literals the pattern captures: digits, or digits
    with a point and more digits.  ([float] accepts further forms, none
    of which the pattern can produce; they are rejected here.) *)
Definition float_of_str (s : string) : res float :=
  match Re.span_digits s with
  | (EmptyString, _) => Raise ValueError
  | (ds, EmptyString) => Ok (Float.of_decimal (digits_value 0 ds) 0)
  | (ds, String "." fs) =>
      match Re.span_digits fs with
      | (EmptyString, _) => Raise ValueError
      | (_, String _ _) => Raise ValueError
      | (_, EmptyString) =>
          Ok (Float.of_decimal (digits_value (digits_value 0 ds) fs)
                               (String.length fs))
      end
  | _ => Raise ValueError
  end.

(** The [for] loop of [extract_price_or_dividend]. *)
Fixpoint collect_snippets (entries : list json) : res (list json) :=
  match entries with
  | [] => Ok []
  | entry :: rest =>
      has <- Py.contains_key "snippet" entry ;;
      if has then
        text <- Py.getitem entry "snippet" ;;
        texts <- collect_snippets rest ;;
        Ok (text :: texts)
      else collect_snippets rest
  end.

(** The local [full_text]: the snippets of the organic results, in
    order, joined by one space. *)
Definition full_text (result_json : json) : res string :=
  organic <- Py.get result_json "organic_results" (JArr []) ;;
  entries <- Py.iter organic ;;
  texts <- collect_snippets entries ;;
  Py.join " " texts.

Definition extract_price_or_dividend (result_json : json)
  : res (option float) :=
  text <- full_text result_json ;;
  match Re.findall text with
  | [] => Ok None
  | m0 :: _ => v <- float_of_str m0 ;; Ok (Some v)
  end.

(** ** The observation slots *)

Record metrics := {
  aapl_init : option float;
  aapl_final : option float;
  msft_init : option float;
  msft_final : option float;
  aapl_div : option float;
  msft_div : option float
}.

Definition no_metrics : metrics :=
  {| aapl_init := None; aapl_final := None; msft_init := None;
     msft_final := None; aapl_div := None; msft_div := None |}.

(** The [if i == 0: ... elif i == 5: ...] ladder. *)
Definition assign (i : nat) (val : option float) (m : metrics) : metrics :=
  match i with
  | 0%nat => {| aapl_init := val; aapl_final := aapl_final m;
                msft_init := msft_init m; msft_final := msft_final m;
                aapl_div := aapl_div m; msft_div := msft_div m |}
  | 1%nat => {| aapl_init := aapl_init m; aapl_final := val;
                msft_init := msft_init m; msft_final := msft_final m;
                aapl_div := aapl_div m; msft_div := msft_div m |}
  | 2%nat => {| aapl_init := aapl_init m; aapl_final := aapl_final m;
                msft_init := val; msft_final := msft_final m;
                aapl_div := aapl_div m; msft_div := msft_div m |}
  | 3%nat => {| aapl_init := aapl_init m; aapl_final := aapl_final m;
                msft_init := msft_init m; msft_final := val;
                aapl_div := aapl_div m; msft_div := msft_div m |}
  | 4%nat => {| aapl_init := aapl_init m; aapl_final := aapl_final m;
                msft_init := msft_init m; msft_final := msft_final m;
                aapl_div := val; msft_div := msft_div m |}
  | 5%nat => {| aapl_init := aapl_init m; aapl_final := aapl_final m;
                msft_init := msft_init m; msft_final := msft_final m;
                aapl_div := aapl_div m; msft_div := val |}
  | _ => m
  end.

(** The six roles in the order of the query positions. *)
Definition role (i : nat) (m : metrics) : option float :=
  match i with
  | 0%nat => aapl_init m
  | 1%nat => aapl_final m
  | 2%nat => msft_init m
  | 3%nat => msft_final m
  | 4%nat => aapl_div m
  | 5%nat => msft_div m
  | _ => None
  end.

(** [for i, item in enumerate(result)], from position [i] on. *)
Fixpoint map_items (i : nat) (items : list json) (m : metrics)
  : res metrics :=
  match items with
  | [] => Ok m
  | item :: rest =>
      val <- extract_price_or_dividend item ;;
      map_items (S i) rest (assign i val m)
  end.

Definition required (m : metrics) : list (option float) :=
  [aapl_init m; aapl_final m; msft_init m; msft_final m;
   aapl_div m; msft_div m].

(** Python's truth value of [None] or a float. *)
Definition truthy (v : option float) : bool :=
  match v with
  | None => false
  | Some x => negb (Float.is_zero x)
  end.

(** [all(required)]. *)
Definition all_required (m : metrics) : bool := forallb truthy (required m).

(** What the design document calls complete: no slot is absent. *)
Definition present (v : option float) : bool :=
  match v with None => false | Some _ => true end.

Definition is_complete (m : metrics) : bool := forallb present (required m).

(** ** The session: calls to the collaborators

    The search provider and the calculation service are outside the
    program.  [serpapi_search] and [post_to_mcp] catch every exception of
    the transport and return a JSON document or [{"error": ...}], so each
    is a total function of its arguments and of what happened before; the
    session records every call it places. *)

Inductive event : Type :=
  | Searched (q : json)
  | Posted (endpoint : string) (data : json).

Definition history := list event.

Definition M (A : Type) : Type := history -> res A * history.

Definition ret {A} (a : A) : M A := fun h => (Ok a, h).

Definition raise {A} (e : exn) : M A := fun h => (Raise e, h).

Definition bind {A B} (m : M A) (k : A -> M B) : M B :=
  fun h =>
    match m h with
    | (Ok a, h') => k a h'
    | (Raise e, h') => (Raise e, h')
    end.

Definition lift {A} (r : res A) : M A := fun h => (r, h).

Notation "x <~ m ;; k" := (bind m (fun x => k))
  (at level 61, m at next level, right associativity).

Fixpoint mapM {A B} (f : A -> M B) (xs : list A) : M (list B) :=
  match xs with
  | [] => ret []
  | x :: xs' => y <~ f x ;; ys <~ mapM f xs' ;; ret (y :: ys)
  end.

Definition is_post (ev : event) : bool :=
  match ev with Posted _ _ => true | Searched _ => false end.

(** A call proposed by the model: [c.function.name] and the decoded
    [c.function.arguments]. *)
Record tool_call := { name : string; arguments : json }.

Inductive outcome : Type :=
  | NoToolCalls
  | MissingData
  | Compared (shown : json).

Section Session.

Variable search_provider : history -> json -> json.
Variable calculation_service : history -> string -> json -> json.

Definition serpapi_search (q : json) : M json :=
  fun h => (Ok (search_provider h q), (h ++ [Searched q])%list).

Definition post_to_mcp (endpoint : string) (data : json) : M json :=
  fun h => (Ok (calculation_service h endpoint data),
            (h ++ [Posted endpoint data])%list).

(** The table [dispatch] of [tool_handler]. *)
Definition dispatch : list (string * (json -> M json)) :=
  [ ("search_stock_data",
     fun a =>
       qs <~ lift (Py.getitem a "query") ;;
       items <~ lift (Py.iter qs) ;;
       rs <~ mapM serpapi_search items ;;
       ret (JArr rs));
    ("calculate_price_return", fun a => post_to_mcp "price-return" a);
    ("calculate_dividend_yield", fun a => post_to_mcp "dividend-yield" a);
    ("calculate_total_return", fun a => post_to_mcp "total-return" a);
    ("compare_returns", fun a => post_to_mcp "compare" a) ].

Fixpoint lookup {A} (k : string) (table : list (string * A)) : option A :=
  match table with
  | [] => None
  | (k', v) :: rest => if String.eqb k k' then Some v else lookup k rest
  end.

Definition tool_handler (name : string) (arguments : json) : M json :=
  match lookup name dispatch with
  | Some handler => handler arguments
  | None => raise (KeyError name)
  end.

(** The body of [for idx, c in enumerate(calls)]. *)
Definition handle_call (c : tool_call) (m : metrics) : M metrics :=
  result <~ tool_handler (name c) (arguments c) ;;
  if String.eqb (name c) "search_stock_data" then
    items <~ lift (Py.iter result) ;;
    lift (map_items 0 items m)
  else ret m.

Fixpoint handle_calls (calls : list tool_call) (m : metrics) : M metrics :=
  match calls with
  | [] => ret m
  | c :: rest => m' <~ handle_call c m ;; handle_calls rest m'
  end.

Definition number (v : option float) : json :=
  match v with Some x => JFloat x | None => JNull end.

(** One ticker's three calculation calls. *)
Definition total_return_of (init final div : option float) : M json :=
  r1 <~ tool_handler "calculate_price_return"
          (JObj [("initial_price", number init);
                 ("final_price", number final)]) ;;
  price_ret <~ lift (Py.getitem r1 "price_return") ;;
  r2 <~ tool_handler "calculate_dividend_yield"
          (JObj [("dividend_total", number div);
                 ("initial_price", number init)]) ;;
  div_yield <~ lift (Py.getitem r2 "dividend_yield") ;;
  r3 <~ tool_handler "calculate_total_return"
          (JObj [("price_return", price_ret);
                 ("dividend_yield", div_yield)]) ;;
  lift (Py.getitem r3 "total_return").

(** Everything after the completeness gate. *)
Definition calculation_chain (m : metrics) : M outcome :=
  aapl_total_return <~
    total_return_of (aapl_init m) (aapl_final m) (aapl_div m) ;;
  msft_total_return <~
    total_return_of (msft_init m) (msft_final m) (msft_div m) ;;
  comparison_result <~ tool_handler "compare_returns"
    (JObj [("stock_a_name", JStr "AAPL");
           ("stock_a_return", aapl_total_return);
           ("stock_b_name", JStr "MSFT");
           ("stock_b_return", msft_total_return)]) ;;
  match comparison_result with
  | JObj fs =>
      match Py.assoc "result" fs with
      | Some r => ret (Compared r)
      | None => ret (Compared comparison_result)
      end
  | _ => ret (Compared comparison_result)
  end.

Definition session (calls : list tool_call) : M outcome :=
  match calls with
  | [] => ret NoToolCalls
  | _ =>
      m <~ handle_calls calls no_metrics ;;
      if negb (all_required m) then ret MissingData
      else calculation_chain m
  end.

End Session.

(** A search call as the tool schema describes it: [query] is an array
    of strings. *)
Definition search_call (queries : list string) : tool_call :=
  {| name := "search_stock_data";
     arguments := JObj [("query", JArr (map JStr queries))] |}.

(** ** Two concrete collaborators

    [echo_search] answers a query with one organic result whose snippet
    is the text of the query, so that a test chooses what the extractor
    will see.  [local_service] is [post_to_mcp] talking to [server.py]:
    the request body is decoded into the endpoint's input record (a
    missing or non-numeric field is a rejected request), the endpoint
    runs, and an exception of the endpoint becomes a failed response;
    both failures reach the session as [{"error": ...}]. *)

Module Collaborators.

Definition snippet_payload (texts : list string) : json :=
  JObj [("organic_results",
         JArr (map (fun t => JObj [("snippet", JStr t)]) texts))].

Definition error_marker (msg : string) : json := JObj [("error", JStr msg)].

Definition echo_search (_ : history) (q : json) : json :=
  match q with
  | JStr t => snippet_payload [t]
  | _ => error_marker "400 Client Error"
  end.

Definition float_field (k : string) (body : json) : option float :=
  match body with
  | JObj fs =>
      match Py.assoc k fs with
      | Some (JFloat x) => Some x
      | Some (JInt n) => Some (Float.of_Z n)
      | _ => None
      end
  | _ => None
  end.

Definition str_field (k : string) (body : json) : option string :=
  match body with
  | JObj fs =>
      match Py.assoc k fs with
      | Some (JStr s) => Some s
      | _ => None
      end
  | _ => None
  end.

Definition respond (r : res json) : json :=
  match r with
  | Ok v => v
  | Raise _ => error_marker "500 Server Error"
  end.

Definition rejected : json := error_marker "422 Client Error".

Definition local_service (_ : history) (endpoint : string) (body : json)
  : json :=
  if String.eqb endpoint "price-return" then
    match float_field "initial_price" body, float_field "final_price" body with
    | Some i, Some f =>
        respond (Server.calc_price_return
                   {| Server.PriceReturnInput.initial_price := i;
                      Server.PriceReturnInput.final_price := f |})
    | _, _ => rejected
    end
  else if String.eqb endpoint "dividend-yield" then
    match float_field "dividend_total" body, float_field "initial_price" body with
    | Some d, Some i =>
        respond (Server.calc_dividend_yield
                   {| Server.DividendInput.dividend_total := d;
                      Server.DividendInput.initial_price := i |})
    | _, _ => rejected
    end
  else if String.eqb endpoint "total-return" then
    match float_field "price_return" body, float_field "dividend_yield" body with
    | Some p, Some d =>
        respond (Server.calc_total_return
                   {| Server.TotalReturnInput.price_return := p;
                      Server.TotalReturnInput.dividend_yield := d |})
    | _, _ => rejected
    end
  else if String.eqb endpoint "compare" then
    match str_field "stock_a_name" body, float_field "stock_a_return" body,
          str_field "stock_b_name" body, float_field "stock_b_return" body with
    | Some a, Some x, Some b, Some y =>
        respond (Server.compare
                   {| Server.CompareInput.stock_a_name := a;
                      Server.CompareInput.stock_a_return := x;
                      Server.CompareInput.stock_b_name := b;
                      Server.CompareInput.stock_b_return := y |})
    | _, _, _, _ => rejected
    end
  else error_marker "404 Client Error".

Definition run (calls : list tool_call) : res outcome * history :=
  session echo_search local_service calls [].

End Collaborators.

(** The names of the tool definitions advertised to the model ([tools]). *)
Definition tools : list string :=
  [ "search_stock_data"; "calculate_price_return";
    "calculate_dividend_yield"; "calculate_total_return";
    "compare_returns" ].

(** The responses to the queries of one search call placed after [h]. *)
Fixpoint responses (search_provider : history -> json -> json)
    (h : history) (qs : list json) : list json :=
  match qs with
  | [] => []
  | q :: qs' =>
      search_provider h q
      :: responses search_provider (h ++ [Searched q])%list qs'
  end.

(** [extracted items vals]: [vals] are the observations the extractor
    returns, item by item. *)
Definition extracted (items : list json) (vals : list (option float))
  : Prop :=
  Forall2 (fun item v => extract_price_or_dividend item = Ok v) items vals.

(** The slot updates of one result list whose observations are [vals],
    starting at position [i]. *)
Fixpoint assign_from (i : nat) (vals : list (option float)) (m : metrics)
  : metrics :=
  match vals with
  | [] => m
  | v :: vs => assign_from (S i) vs (assign i v m)
  end.

(** The observations of the design document's scenario. *)
Definition scenario_queries : list string :=
  [ "AAPL closed at $100 a year ago"; "AAPL trades at $120";
    "MSFT closed at $200 a year ago"; "MSFT trades at $210.00";
    "AAPL paid $2 in dividends"; "MSFT paid $3.0 in dividends" ].

Definition scenario_items : list json :=
  map (fun t => Collaborators.snippet_payload [t]) scenario_queries.

Definition scenario_vals : list (option float) :=
  map (fun n => Some (Float.of_Z n)) [100; 120; 200; 210; 2; 3].

(** The scenario with a dividend total of zero for the first ticker. *)
Definition zero_dividend_queries : list string :=
  [ "AAPL closed at $100 a year ago"; "AAPL trades at $120";
    "MSFT closed at $200 a year ago"; "MSFT trades at $210.00";
    "AAPL paid $0 in dividends"; "MSFT paid $3.0 in dividends" ].

(** The scenario with an initial price of zero for the first ticker. *)
Definition zero_price_queries : list string :=
  [ "AAPL closed at $0 a year ago"; "AAPL trades at $120";
    "MSFT closed at $200 a year ago"; "MSFT trades at $210.00";
    "AAPL paid $2 in dividends"; "MSFT paid $3.0 in dividends" ].

(** ** The currency pattern, read declaratively

    These definitions say in words of strings what a match of
    [\$([0-9]+(?:\.[0-9]{1,2})?)] is; the scanner [Re.findall] is
    compared with them below. *)

Fixpoint all_digits (s : string) : bool :=
  match s with
  | EmptyString => true
  | String c s' => Re.is_digit c && all_digits s'
  end.

Definition starts_with_digit (s : string) : bool :=
  match s with
  | String c _ => Re.is_digit c
  | EmptyString => false
  end.

(** No match begins inside [pre] when [pre] is followed by [next]: every
    [$] of [pre] is followed by something else than a digit. *)
Definition no_match_start (pre next : string) : Prop :=
  forall u v, pre = u ++ "$" ++ v -> starts_with_digit (v ++ next) = false.

(** The text holds no match at all. *)
Definition no_currency (text : string) : Prop := no_match_start text "".

(** [fraction_of fr rest]: in front of [rest], the optional group takes
    [fr] — a point and two digits, or a point and one digit when no
    second digit follows, or nothing when no point-and-digit follows. *)
Inductive fraction_of : string -> string -> Prop :=
  | frac_two d1 d2 rest :
      Re.is_digit d1 = true -> Re.is_digit d2 = true ->
      fraction_of (String "." (String d1 (String d2 ""))) rest
  | frac_one d1 rest :
      Re.is_digit d1 = true -> starts_with_digit rest = false ->
      fraction_of (String "." (String d1 "")) rest
  | frac_none rest :
      (forall d r, rest = String "." (String d r) -> Re.is_digit d = false) ->
      fraction_of "" rest.

(** [first_currency text ds fr]: the leftmost match in [text] is [$]
    followed by the digits [ds] (as many as there are) and the fraction
    [fr]. *)
Definition first_currency (text ds fr : string) : Prop :=
  exists pre rest,
    text = pre ++ "$" ++ ds ++ fr ++ rest /\
    no_match_start pre "$" /\
    ds <> "" /\
    all_digits ds = true /\
    starts_with_digit (fr ++ rest) = false /\
    fraction_of fr rest.

(** The number a literal [ds] or [ds.fs] denotes, as a float. *)
Definition decimal_value (ds fr : string) : float :=
  match fr with
  | String _ fs =>
      Float.of_decimal (digits_value (digits_value 0 ds) fs)
                       (String.length fs)
  | EmptyString => Float.of_decimal (digits_value 0 ds) 0
  end.

(** ** Payloads of the search provider's shape

    [{organic_results: [{snippet?: string, ...}, ...]}] with any field
    missing, which includes the error payload [{"error": ...}]. *)

Definition wf_entry (entry : json) : bool :=
  match entry with
  | JObj fs =>
      match Py.assoc "snippet" fs with
      | Some (JStr _) | None => true
      | Some _ => false
      end
  | _ => false
  end.

Definition wf_payload (payload : json) : bool :=
  match payload with
  | JObj fs =>
      match Py.assoc "organic_results" fs with
      | None => true
      | Some (JArr entries) => forallb wf_entry entries
      | Some _ => false
      end
  | _ => false
  end.

Definition has_snippet (entry : json) : bool :=
  match entry with
  | JObj fs =>
      match Py.assoc "snippet" fs with Some _ => true | None => false end
  | _ => false
  end.

(** The entries under [organic_results], none when the key is missing. *)
Definition organic_entries (payload : json) : list json :=
  match payload with
  | JObj fs =>
      match Py.assoc "organic_results" fs with
      | Some (JArr entries) => entries
      | _ => []
      end
  | _ => []
  end.

(** The snippets of the entries that carry one, in order. *)
Definition snippets (entries : list json) : list string :=
  flat_map (fun entry =>
              match entry with
              | JObj fs =>
                  match Py.assoc "snippet" fs with
                  | Some (JStr s) => [s]
                  | _ => []
                  end
              | _ => []
              end) entries.

(** ** Rounding, for the proofs about subtraction *)

(** The invariant of rounding: a positive mantissa whose value is at
    least the smallest subnormal, [2 ^ -1074]. *)
Definition above_min (m e : Z) : Prop :=
  0 < m /\ (e < -1074 -> 2 ^ (-1074 - e) <= m).

(** A result with sign [s] that is neither zero nor NaN. *)
Definition signed (s : bool) (r : spec_float) : Prop :=
  match r with
  | S754_finite s' _ _ | S754_infinity s' => s' = s
  | _ => False
  end.

(** ** Several search calls, read declaratively *)

(** [calls_extracted sp h qss valss]: the search calls with the query
    lists [qss], placed one after the other from history [h] on, get
    responses whose observations are the lists [valss]. *)
Fixpoint calls_extracted (search_provider : history -> json -> json)
    (h : history) (qss : list (list string))
    (valss : list (list (option float))) : Prop :=
  match qss, valss with
  | [], [] => True
  | qs :: qss', vals :: valss' =>
      extracted (responses search_provider h (map JStr qs)) vals /\
      calls_extracted search_provider
        (h ++ map Searched (map JStr qs))%list qss' valss'
  | _, _ => False
  end.

(** The value at position [i] of the last list that reaches position
    [i], or [old] when none does. *)
Fixpoint latest (i : nat) (valss : list (list (option float)))
    (old : option float) : option float :=
  match valss with
  | [] => old
  | vals :: rest =>
      latest i rest
        (if (i <? List.length vals)%nat then nth i vals None else old)
  end.

(** The history after the search calls with the query lists [qss]. *)
Fixpoint searched (h : history) (qss : list (list string)) : history :=
  match qss with
  | [] => h
  | qs :: qss' => searched (h ++ map Searched (map JStr qs))%list qss'
  end.

(** ** [server.py]: the search endpoint

    [os.environ] holds the key of the provider or does not.
    [requests.get] is the provider.  It raises (a connection error, a
    timeout) or returns a response: a status code, a text, and the JSON
    document the text decodes to, if it is one.  The endpoint has no
    [try], so it returns the decoded body or raises one of four
    exceptions: its own [HTTPException], the [KeyError] of the missing
    key, what [requests.get] raised, or what [response.json()] raised. *)

Module ServerSearch.

Inductive exception : Type :=
  | HTTPException (status_code : Z) (detail : string)
  | EnvironKeyError (key : string)
  | RequestException
  | JSONDecodeError.

Record response := {
  status_code : Z;
  text : string;
  decoded : option json
}.

(** [str.lower] on the ASCII letters.  (No character outside ASCII has a
    lower-case form that can complete the phrase tested below.) *)
Definition lower_char (c : ascii) : ascii :=
  let n := N_of_ascii c in
  if ((65 <=? n) && (n <=? 90))%N then ascii_of_N (n + 32) else c.

Fixpoint lower (s : string) : string :=
  match s with
  | EmptyString => EmptyString
  | String c s' => String (lower_char c) (lower s')
  end.

Definition search (environ : option string)
    (provider : string -> string -> option response) (q : string)
  : exception + json :=
  if negb (Py.contains "yahoo finance" (lower q)) then
    inl (HTTPException 403 "Query must include 'Yahoo Finance' as source.")
  else
    match environ with
    | None => inl (EnvironKeyError "SERPAPI_API_KEY")
    | Some api_key =>
        match provider q api_key with
        | None => inl RequestException
        | Some r =>
            if negb (status_code r =? 200) then
              inl (HTTPException (status_code r) (text r))
            else
              match decoded r with
              | Some document => inr document
              | None => inl JSONDecodeError
              end
        end
    end.

End ServerSearch.

(** [caseless w phrase]: [w] is [phrase] letter by letter, each letter
    of [w] being the one of [phrase] or the capital 32 codes below it. *)
Definition capital_of (c p : ascii) : Prop :=
  (65 <= N_of_ascii c)%N /\ (N_of_ascii c <= 90)%N /\
  (N_of_ascii c + 32 = N_of_ascii p)%N.

Fixpoint caseless (w phrase : string) : Prop :=
  match w, phrase with
  | EmptyString, EmptyString => True
  | String c w', String p phrase' =>
      (c = p \/ capital_of c p) /\ caseless w' phrase'
  | _, _ => False
  end.

(** No letter of [phrase] is a capital. *)
Fixpoint no_capital (phrase : string) : Prop :=
  match phrase with
  | EmptyString => True
  | String p phrase' =>
      ((N_of_ascii p < 65)%N \/ (90 < N_of_ascii p)%N) /\
      no_capital phrase'
  end.

(** The calculation tools and the endpoint each one posts to. *)
Definition calculation_endpoints : list (string * string) :=
  [ ("calculate_price_return", "price-return");
    ("calculate_dividend_yield", "dividend-yield");
    ("calculate_total_return", "total-return");
    ("compare_returns", "compare") ].

(** A float that is not NaN and has sign [s]. *)
Definition has_sign (s : bool) (r : spec_float) : Prop :=
  match r with
  | S754_nan => False
  | S754_zero s' | S754_infinity s' | S754_finite s' _ _ => s' = s
  end.

(** The number of characters of a string in its UTF-8 reading: the bytes
    that begin one. *)
Fixpoint code_points (s : string) : nat :=
  match s with
  | EmptyString => 0
  | String c s' =>
      if Py.is_continuation c then code_points s' else S (code_points s')
  end.

(** ** The real number a float stands for, and rounding

    These definitions say what the value of a binary64 float is and
    when a float is a rational number rounded; the operations of
    [Float] are compared with them below. *)

(** The value of a finite float is its mantissa times two to its
    exponent, negated under the sign; a zero has value zero. *)
Definition value (x : float) : Q :=
  match x with
  | S754_finite s m e =>
      ((if s then - inject_Z (Zpos m) else inject_Z (Zpos m)) * 2 ^ e)%Q
  | _ => 0%Q
  end.

(** [rounded r x]: the float [r] is [x] rounded to binary64.  A finite
    [r] has its mantissa on 53 bits (fewer at the least exponent) and
    lies within half a unit in its last place of [x]; a zero stands for
    an [x] of at most half the least positive float; an infinity stands
    for an [x] of at least the largest finite float, of its sign; a NaN
    stands for no number. *)
Definition rounded (r : float) (x : Q) : Prop :=
  match r with
  | S754_zero _ => (Qabs x <= 2 ^ (-1075))%Q
  | S754_finite s m e =>
      -1074 <= e <= 971 /\
      (2 ^ 52 <= Zpos m < 2 ^ 53 \/ e = -1074 /\ Zpos m < 2 ^ 52) /\
      (Qabs (value r - x) <= 2 ^ (e - 1))%Q
  | S754_infinity s =>
      (2 ^ 1024 - 2 ^ 971 <= (if s then - x else x))%Q
  | S754_nan => False
  end.

(** Zero or finite: neither an infinity nor a NaN. *)
Definition is_finite (x : float) : bool :=
  match x with
  | S754_zero _ | S754_finite _ _ _ => true
  | _ => false
  end.

(** [located mrs A B]: the shift record [mrs] holds the integer part of
    [A / B], whether the rest reaches one half, and whether it is
    neither zero nor one half. *)
Definition located (mrs : shr_record) (A B : Z) : Prop :=
  0 < B /\ 0 <= shr_m mrs /\
  0 <= A - shr_m mrs * B < B /\
  shr_r mrs = (B <=? 2 * (A - shr_m mrs * B)) /\
  shr_s mrs = negb (2 * (A - shr_m mrs * B) =? 0)
              && negb (2 * (A - shr_m mrs * B) =? B).

(** ** Decimal literals, read as numbers *)

(** The digit a character writes. *)
Definition digit (c : ascii) : Z :=
  match c with
  | "0"%char => 0
  | "1"%char => 1
  | "2"%char => 2
  | "3"%char => 3
  | "4"%char => 4
  | "5"%char => 5
  | "6"%char => 6
  | "7"%char => 7
  | "8"%char => 8
  | "9"%char => 9
  | _ => 0
  end.

(** The number a string of digits writes in base ten: each digit counts
    ten to the number of digits after it. *)
Fixpoint whole (ds : string) : Z :=
  match ds with
  | EmptyString => 0
  | String c ds' => digit c * 10 ^ Z.of_nat (String.length ds') + whole ds'
  end.

(** The number the digits after the point write: the first counts
    tenths, the second hundredths. *)
Fixpoint part (fs : string) : Q :=
  match fs with
  | EmptyString => 0%Q
  | String c fs' => ((inject_Z (digit c) + part fs') * (1 # 10))%Q
  end.

(** The rational number the literal [ds] followed by [fr] denotes, [fr]
    being empty or a point and digits. *)
Definition literal (ds fr : string) : Q :=
  (inject_Z (whole ds)
   + match fr with
     | String _ fs => part fs
     | EmptyString => 0
     end)%Q.

(** * Properties *)

(** ** The dispatcher *)

Section Dispatcher.

Variable search_provider : history -> json -> json.
Variable calculation_service : history -> string -> json -> json.

Lemma dispatch_keys :
  map fst (dispatch search_provider calculation_service) = tools.
Proof. reflexivity. Qed.

Lemma lookup_none_iff {A} (k : string) (table : list (string * A)) :
  lookup k table = None <-> ~ In k (map fst table).
Proof.
  induction table as [|[k' v] rest IH]; simpl.
  - tauto.
  - destruct (String.eqb_spec k k') as [->|Hne].
    + split; [discriminate | intros H; exfalso; apply H; now left].
    + rewrite IH. split.
      * intros H [E|I]; [now apply Hne | now apply H].
      * intros H I. apply H. now right.
Qed.

Lemma tool_handler_not_registered (name : string) (arguments : json)
    (h : history) :
  ~ In name tools ->
  tool_handler search_provider calculation_service name arguments h
  = (Raise (KeyError name), h).
Proof.
  intros Hout. unfold tool_handler.
  assert (E : lookup name (dispatch search_provider calculation_service)
              = None).
  { apply lookup_none_iff. now rewrite dispatch_keys. }
  now rewrite E.
Qed.

Lemma handle_calls_app (before after : list tool_call) :
  forall (m : metrics) (h : history),
    handle_calls search_provider calculation_service (before ++ after) m h
    = match handle_calls search_provider calculation_service before m h with
      | (Ok m', h') =>
          handle_calls search_provider calculation_service after m' h'
      | (Raise e, h') => (Raise e, h')
      end.
Proof.
  induction before as [|b before IH]; intros m h; [reflexivity|].
  cbn [app handle_calls]. unfold bind.
  destruct (handle_call search_provider calculation_service b m h)
    as [[m'|e] h']; [apply IH | reflexivity].
Qed.

(** C2 (as amended): a name outside the registry makes [tool_handler]
    raise [KeyError] with that name, before any collaborator is called;
    no error marker is returned.  Nothing in the session catches it:
    wherever the call stands in the model's list, once the calls before
    it are done the session ends with that exception, the calls after
    it are never placed, and no outcome is reported. *)
Theorem tool_handler_unknown_raises (before after : list tool_call)
    (c : tool_call) (m : metrics) (h h1 : history) :
  ~ In (name c) tools ->
  handle_calls search_provider calculation_service before no_metrics h
  = (Ok m, h1) ->
  tool_handler search_provider calculation_service
    (name c) (arguments c) h1
  = (Raise (KeyError (name c)), h1) /\
  handle_calls search_provider calculation_service
    (before ++ c :: after) no_metrics h
  = (Raise (KeyError (name c)), h1) /\
  session search_provider calculation_service (before ++ c :: after) h
  = (Raise (KeyError (name c)), h1).
Proof.
  intros Hout Hbefore.
  pose proof (tool_handler_not_registered (name c) (arguments c) h1 Hout)
    as E.
  assert (Hloop :
    handle_calls search_provider calculation_service
      (before ++ c :: after) no_metrics h
    = (Raise (KeyError (name c)), h1)).
  { rewrite handle_calls_app, Hbefore. cbn [handle_calls].
    unfold bind, handle_call, bind. now rewrite E. }
  split; [exact E|]. split; [exact Hloop|].
  unfold session.
  destruct (before ++ c :: after)%list as [|x rest] eqn:Ecalls.
  - now destruct before.
  - unfold bind. now rewrite Hloop.
Qed.

Lemma mapM_serpapi_search (qs : list json) (h : history) :
  mapM (serpapi_search search_provider) qs h
  = (Ok (responses search_provider h qs), (h ++ map Searched qs)%list).
Proof.
  revert h. induction qs as [|q qs IH]; intros h; simpl.
  - unfold ret. now rewrite app_nil_r.
  - unfold bind at 1. unfold serpapi_search at 1.
    unfold bind at 1. rewrite IH. unfold ret.
    now rewrite <- app_assoc.
Qed.

(** A search call returns the list of the responses, one per query and
    in the order of the queries. *)
Lemma tool_handler_search (arguments qv : json) (qs : list json)
    (h : history) :
  Py.getitem arguments "query" = Ok qv ->
  Py.iter qv = Ok qs ->
  tool_handler search_provider calculation_service
    "search_stock_data" arguments h
  = (Ok (JArr (responses search_provider h qs)),
     (h ++ map Searched qs)%list).
Proof.
  intros Hq Hi. unfold tool_handler. simpl.
  unfold bind, lift. rewrite Hq, Hi.
  rewrite mapM_serpapi_search. reflexivity.
Qed.

End Dispatcher.

(** C2 (as stated) fails: an unknown name makes the dispatcher raise, so
    no result — error marker or other — comes back. *)
Lemma tool_handler_unknown_no_result :
  raises (fst (tool_handler Collaborators.echo_search
                 Collaborators.local_service
                 "get_weather" (JObj [("city", JStr "Paris")]) []))
  = true.
Proof. reflexivity. Qed.

Lemma tool_handler_unknown_raises_witness :
  let sp := Collaborators.echo_search in
  let cs := Collaborators.local_service in
  let before := [search_call ["AAPL closed at $100 a year ago"]] in
  let c := {| name := "get_weather";
              arguments := JObj [("city", JStr "Paris")] |} in
  let after := [search_call scenario_queries] in
  let m := assign 0 (Some (Float.of_Z 100)) no_metrics in
  let h1 := [Searched (JStr "AAPL closed at $100 a year ago")] in
  ~ In (name c) tools /\
  handle_calls sp cs before no_metrics [] = (Ok m, h1) /\
  tool_handler sp cs (name c) (arguments c) h1
  = (Raise (KeyError (name c)), h1) /\
  handle_calls sp cs (before ++ c :: after) no_metrics []
  = (Raise (KeyError (name c)), h1) /\
  session sp cs (before ++ c :: after) []
  = (Raise (KeyError (name c)), h1).
Proof.
  intros sp cs before c after m h1.
  assert (Hout : ~ In (name c) tools).
  { simpl. intros [H|[H|[H|[H|[H|[]]]]]]; discriminate H. }
  assert (Hbefore : handle_calls sp cs before no_metrics [] = (Ok m, h1))
    by reflexivity.
  split; [exact Hout|]. split; [exact Hbefore|].
  exact (tool_handler_unknown_raises sp cs before after c m [] h1
           Hout Hbefore).
Defined.

(** ** The slot mapper *)

Section Mapper.

Local Open Scope nat_scope.

Lemma role_assign (i j : nat) (v : option float) (m : metrics) :
  j < 6 -> role j (assign i v m) = if Nat.eqb j i then v else role j m.
Proof.
  intros Hj.
  do 6 (destruct j as [|j]; [do 7 (destruct i as [|i]; [reflexivity|]);
                             reflexivity|]).
  lia.
Qed.

Lemma role_assign_from (vals : list (option float)) :
  forall (i j : nat) (m : metrics),
    j < 6 ->
    role j (assign_from i vals m)
    = if (i <=? j) && (j <? i + List.length vals)
      then nth (j - i) vals None
      else role j m.
Proof.
  induction vals as [|v vs IH]; intros i j m Hj; simpl.
  - replace (j <? i + 0) with (negb (i <=? j)).
    + now destruct (i <=? j).
    + rewrite Nat.add_0_r, Nat.ltb_antisym. reflexivity.
  - rewrite IH by assumption. rewrite role_assign by assumption.
    destruct (Nat.eqb_spec j i) as [->|Hne].
    + rewrite Nat.leb_refl, Nat.sub_diag.
      replace (S i <=? i) with false by (symmetry; apply Nat.leb_gt; lia).
      replace (i <? i + S (List.length vs)) with true
        by (symmetry; apply Nat.ltb_lt; lia).
      reflexivity.
    + destruct (Nat.leb_spec (S i) j) as [Hle|Hgt].
      * replace (i <=? j) with true by (symmetry; apply Nat.leb_le; lia).
        replace (i + S (List.length vs)) with (S i + List.length vs) by lia.
        destruct (j <? S i + List.length vs); simpl; [|reflexivity].
        replace (j - i) with (S (j - S i)) by lia. reflexivity.
      * replace (i <=? j) with false by (symmetry; apply Nat.leb_gt; lia).
        reflexivity.
Qed.



Lemma map_items_extracted (items : list json) (vals : list (option float)) :
  extracted items vals ->
  forall (i : nat) (m : metrics),
    map_items i items m = Ok (assign_from i vals m).
Proof.
  induction 1 as [|item v items vals Hv _ IH]; intros i m; simpl.
  - reflexivity.
  - rewrite Hv. simpl. apply IH.
Qed.




End Mapper.



(** The scenario of the design document: six queries in one call with
    the values 100, 120, 200, 210, 2, 3. *)
Example map_items_scenario :
  map_items 0 scenario_items no_metrics
  = Ok {| aapl_init := Some (Float.of_Z 100);
          aapl_final := Some (Float.of_Z 120);
          msft_init := Some (Float.of_Z 200);
          msft_final := Some (Float.of_Z 210);
          aapl_div := Some (Float.of_Z 2);
          msft_div := Some (Float.of_Z 3) |}.
Proof. reflexivity. Qed.

(** ** Several search calls *)

Section SearchCalls.

Variable search_provider : history -> json -> json.
Variable calculation_service : history -> string -> json -> json.

Lemma handle_call_search (queries : list string) (m : metrics)
    (h : history) :
  handle_call search_provider calculation_service (search_call queries) m h
  = (map_items 0 (responses search_provider h (map JStr queries)) m,
     (h ++ map Searched (map JStr queries))%list).
Proof.
  unfold handle_call, bind. simpl name. simpl arguments.
  rewrite (tool_handler_search search_provider calculation_service
             _ (JArr (map JStr queries)) (map JStr queries))
    by reflexivity.
  reflexivity.
Qed.

(** C10 (as amended): after any number of search calls, each role
    holds the value — present or absent — extracted at its position by
    the last call whose result list reaches that position, and what it
    held before when no call reaches it. *)
Theorem later_search_call_overwrites (qss : list (list string)) :
  forall (valss : list (list (option float))) (m : metrics) (h : history),
    calls_extracted search_provider h qss valss ->
    exists m',
      handle_calls search_provider calculation_service
        (map search_call qss) m h = (Ok m', searched h qss) /\
      forall i, (i < 6)%nat -> role i m' = latest i valss (role i m).
Proof.
  induction qss as [|qs qss IH]; intros [|vals valss] m h Hx;
    try contradiction.
  - exists m. split; [reflexivity|]. reflexivity.
  - destruct Hx as [Hx Hrest].
    destruct (IH valss (assign_from 0 vals m) _ Hrest) as (m' & Hm' & Hr).
    exists m'. split.
    + cbn [map handle_calls searched]. unfold bind at 1.
      rewrite handle_call_search, (map_items_extracted _ vals Hx).
      exact Hm'.
    + intros i Hi. rewrite (Hr i Hi). cbn [latest]. f_equal.
      rewrite role_assign_from by assumption. simpl.
      now rewrite Nat.sub_0_r.
Qed.

End SearchCalls.

Lemma later_search_call_overwrites_witness :
  let sp := Collaborators.echo_search in
  let qss := [["AAPL closed at $100 a year ago"; "AAPL trades at $120"];
              ["no figure in this snippet"]] in
  let valss := [[Some (Float.of_Z 100); Some (Float.of_Z 120)];
                [@None float]] in
  calls_extracted sp [] qss valss /\
  exists m',
    handle_calls sp Collaborators.local_service
      (map search_call qss) no_metrics [] = (Ok m', searched [] qss) /\
    forall i, (i < 6)%nat -> role i m' = latest i valss (role i no_metrics).
Proof.
  intros sp qss valss.
  assert (H : calls_extracted sp [] qss valss).
  { split; [repeat constructor|]. split; [repeat constructor|exact I]. }
  split; [exact H|].
  exact (later_search_call_overwrites sp Collaborators.local_service
           qss valss no_metrics [] H).
Defined.

(** C10 (as stated) fails: the first call extracts 100 for A_init, the
    second call extracts nothing at position 0, and A_init ends absent
    instead of keeping the last present value. *)
Lemma later_absent_value_erases :
  exists m1 m2 h1 h2,
    handle_calls Collaborators.echo_search Collaborators.local_service
      [search_call ["AAPL closed at $100 a year ago"]] no_metrics []
    = (Ok m1, h1) /\
    role 0 m1 = Some (Float.of_Z 100) /\
    handle_calls Collaborators.echo_search Collaborators.local_service
      [search_call ["AAPL closed at $100 a year ago"];
       search_call ["no figure in this snippet"]] no_metrics []
    = (Ok m2, h2) /\
    role 0 m2 = None /\
    role 0 m2 <> role 0 m1.
Proof.
  do 4 eexists. split; [vm_compute; reflexivity|].
  split; [reflexivity|]. split; [vm_compute; reflexivity|].
  split; [reflexivity|]. discriminate.
Qed.

(** ** The completeness gate *)

Section Gate.

Variable search_provider : history -> json -> json.
Variable calculation_service : history -> string -> json -> json.

Lemma truthy_present (v : option float) : truthy v = true -> present v = true.
Proof. now destruct v. Qed.

(** Whatever passes the gate is complete. *)
Lemma all_required_is_complete (m : metrics) :
  all_required m = true -> is_complete m = true.
Proof.
  unfold all_required, is_complete. rewrite !forallb_forall.
  intros H v Hv. apply truthy_present. now apply H.
Qed.

(** A slot that is absent closes the gate. *)
Lemma incomplete_fails_gate (m : metrics) :
  is_complete m = false -> all_required m = false.
Proof.
  intros H. destruct (all_required m) eqn:E; [|reflexivity].
  apply all_required_is_complete in E. congruence.
Qed.

(** When the gate is closed the session reports missing data and places
    no call after the ones of the dispatch loop. *)
Lemma session_gate_closed (c : tool_call) (calls : list tool_call)
    (m : metrics) (h h' : history) :
  handle_calls search_provider calculation_service (c :: calls)
    no_metrics h = (Ok m, h') ->
  all_required m = false ->
  session search_provider calculation_service (c :: calls) h
  = (Ok MissingData, h').
Proof.
  intros Hloop Hgate. unfold session, bind. rewrite Hloop, Hgate.
  reflexivity.
Qed.

(** When the gate is open the session goes on with the calculations. *)
Lemma session_gate_open (c : tool_call) (calls : list tool_call)
    (m : metrics) (h h' : history) :
  handle_calls search_provider calculation_service (c :: calls)
    no_metrics h = (Ok m, h') ->
  all_required m = true ->
  session search_provider calculation_service (c :: calls) h
  = calculation_chain search_provider calculation_service m h'.
Proof.
  intros Hloop Hgate. unfold session, bind. rewrite Hloop, Hgate.
  reflexivity.
Qed.

End Gate.

(** C1 (the code departs from it): all six roles hold a value, one of
    them 0.0, yet the gate [all(required)] is closed and the session
    ends with the missing-data report, no calculation call placed. *)
Theorem zero_value_closes_gate :
  exists m h,
    handle_calls Collaborators.echo_search Collaborators.local_service
      [search_call zero_dividend_queries] no_metrics [] = (Ok m, h) /\
    aapl_div m = Some Float.zero /\
    is_complete m = true /\
    all_required m = false /\
    Collaborators.run [search_call zero_dividend_queries]
    = (Ok MissingData, h) /\
    existsb is_post h = false.
Proof.
  do 2 eexists. split; [vm_compute; reflexivity|].
  repeat split; reflexivity.
Qed.

(** A zero divisor makes the two dividing endpoints raise. *)
Lemma calc_price_return_zero (data : Server.PriceReturnInput.t) :
  Float.is_zero (Server.PriceReturnInput.initial_price data) = true ->
  Server.calc_price_return data = Raise ZeroDivisionError.
Proof.
  intros H. unfold Server.calc_price_return, Server.truediv.
  now rewrite H.
Qed.

Lemma calc_dividend_yield_zero (data : Server.DividendInput.t) :
  Float.is_zero (Server.DividendInput.initial_price data) = true ->
  Server.calc_dividend_yield data = Raise ZeroDivisionError.
Proof.
  intros H. unfold Server.calc_dividend_yield, Server.truediv.
  now rewrite H.
Qed.

(** C3 (the code departs from it): an initial price of exactly zero
    never reaches the price-return step.  The gate takes 0.0 for a
    missing value, and the session ends with the same missing-data
    report as for an absent observation, no calculation call placed. *)
Theorem zero_initial_price_reported_missing :
  exists m h,
    handle_calls Collaborators.echo_search Collaborators.local_service
      [search_call zero_price_queries] no_metrics [] = (Ok m, h) /\
    aapl_init m = Some Float.zero /\
    is_complete m = true /\
    Collaborators.run [search_call zero_price_queries]
    = (Ok MissingData, h) /\
    existsb is_post h = false /\
    Collaborators.run [search_call ["no figure in this snippet"]]
    = (Ok MissingData, [Searched (JStr "no figure in this snippet")]).
Proof.
  do 2 eexists. split; [vm_compute; reflexivity|].
  repeat split; reflexivity.
Qed.

(** ** The extractor *)

Section Scanner.

Arguments Re.is_digit : simpl never.

Lemma append_assoc (a b c : string) : (a ++ b) ++ c = a ++ b ++ c.
Proof. induction a as [|x a IH]; simpl; [reflexivity | now rewrite IH]. Qed.

Lemma append_nil_r (a : string) : a ++ "" = a.
Proof. induction a as [|x a IH]; simpl; [reflexivity | now rewrite IH]. Qed.

Lemma dollar_not_digit : Re.is_digit "$" = false.
Proof. reflexivity. Qed.

Lemma point_not_digit : Re.is_digit "." = false.
Proof. reflexivity. Qed.

Lemma span_digits_app (ds rest : string) :
  all_digits ds = true ->
  starts_with_digit rest = false ->
  Re.span_digits (ds ++ rest) = (ds, rest).
Proof.
  intros Hd Hr. induction ds as [|c ds IH]; simpl in *.
  - destruct rest as [|c r]; [reflexivity|]. simpl in *. now rewrite Hr.
  - apply andb_true_iff in Hd as [Hc Hd]. rewrite Hc, (IH Hd). reflexivity.
Qed.

Lemma span_digits_split (s : string) :
  let (ds, rest) := Re.span_digits s in
  s = ds ++ rest /\ all_digits ds = true /\ starts_with_digit rest = false.
Proof.
  induction s as [|c s IH]; simpl.
  - repeat split.
  - destruct (Re.is_digit c) eqn:Hc.
    + destruct (Re.span_digits s) as [ds rest].
      destruct IH as (-> & Hd & Hr). simpl. rewrite Hc, Hd. repeat split.
      exact Hr.
    + simpl. rewrite Hc. repeat split.
Qed.

Lemma span_digits_nil (s : string) :
  starts_with_digit s = false -> fst (Re.span_digits s) = "".
Proof.
  destruct s as [|c s]; simpl; [reflexivity|]. now intros ->.
Qed.

Lemma fraction_app (fr rest : string) :
  fraction_of fr rest -> Re.fraction (fr ++ rest) = fr.
Proof.
  intros [d1 d2 r H1 H2 | d1 r H1 Hr | r Hr]; simpl.
  - now rewrite H1, H2.
  - rewrite H1. destruct r as [|c r]; [reflexivity|].
    simpl in Hr. now rewrite Hr.
  - destruct r as [|c r]; [reflexivity|].
    destruct (Ascii.eqb_spec c ".") as [->|Hc].
    + destruct r as [|d r]; [reflexivity|]. simpl.
      now rewrite (Hr d r eq_refl).
    + unfold Re.fraction.
      destruct c as [[] [] [] [] [] [] [] []]; try reflexivity.
      now elim Hc.
Qed.

Lemma fraction_split (s : string) :
  exists rest, s = Re.fraction s ++ rest /\ fraction_of (Re.fraction s) rest.
Proof.
  destruct s as [|c s].
  - exists "". split; [reflexivity|]. constructor. discriminate.
  - destruct (Ascii.eqb_spec c ".") as [->|Hc].
    + destruct s as [|d1 s].
      * exists ".". split; [reflexivity|]. constructor. discriminate.
      * simpl. destruct (Re.is_digit d1) eqn:H1.
        -- destruct s as [|d2 s].
           ++ exists "". split; [reflexivity|]. now constructor.
           ++ destruct (Re.is_digit d2) eqn:H2.
              ** exists s. split; [reflexivity|]. now constructor.
              ** exists (String d2 s). split; [reflexivity|].
                 now constructor.
        -- exists (String "." (String d1 s)). split; [reflexivity|].
           constructor. intros d r E. now inversion E; subst.
    + exists (String c s).
      assert (E : Re.fraction (String c s) = "").
      { unfold Re.fraction.
        destruct c as [[] [] [] [] [] [] [] []]; try reflexivity.
        now elim Hc. }
      rewrite E. split; [reflexivity|]. constructor.
      intros d r E'. inversion E'. now elim Hc.
Qed.

Lemma match_at_currency (ds fr rest : string) :
  ds <> "" ->
  all_digits ds = true ->
  starts_with_digit (fr ++ rest) = false ->
  fraction_of fr rest ->
  Re.match_at ("$" ++ ds ++ fr ++ rest) = Some (ds ++ fr).
Proof.
  intros Hne Hd Hs Hf. simpl. rewrite (span_digits_app _ _ Hd Hs).
  destruct ds as [|c ds]; [now elim Hne|].
  now rewrite (fraction_app _ _ Hf).
Qed.

Lemma match_at_other (c : ascii) (s : string) :
  c <> "$"%char -> Re.match_at (String c s) = None.
Proof.
  intros Hc. unfold Re.match_at.
  destruct c as [[] [] [] [] [] [] [] []]; try reflexivity. now elim Hc.
Qed.

Lemma match_at_no_digit (s : string) :
  starts_with_digit s = false -> Re.match_at (String "$" s) = None.
Proof.
  intros Hs. simpl. pose proof (span_digits_nil s Hs) as E.
  destruct (Re.span_digits s) as [ds r]. simpl in E. now subst ds.
Qed.

Lemma no_match_start_tail (c : ascii) (pre next : string) :
  no_match_start (String c pre) next -> no_match_start pre next.
Proof.
  intros H u v E. apply (H (String c u) v). simpl. now rewrite E.
Qed.

Lemma findall_skip_prefix (pre next : string) :
  no_match_start pre next ->
  Re.findall_from 0 (pre ++ next) = Re.findall_from 0 next.
Proof.
  induction pre as [|c pre IH]; intros H; [reflexivity|].
  cbn [append Re.findall_from].
  assert (E : Re.match_at (String c (pre ++ next)) = None).
  { destruct (Ascii.eqb_spec c "$") as [->|Hc].
    - apply match_at_no_digit. now apply (H "" pre).
    - now apply match_at_other. }
  rewrite E. apply IH. now apply no_match_start_tail in H.
Qed.

Lemma findall_head (s g : string) :
  Re.match_at s = Some g ->
  exists rest, Re.findall s = g :: rest.
Proof.
  intros H. destruct s as [|c s]; [discriminate H|].
  unfold Re.findall. cbn [Re.findall_from]. rewrite H. eauto.
Qed.

Lemma no_match_start_dollar (pre next : string) :
  no_match_start pre "$" -> no_match_start pre (String "$" next).
Proof.
  intros H u v E. specialize (H u v E). now destruct v.
Qed.

Lemma findall_first_currency (text ds fr : string) :
  first_currency text ds fr ->
  exists rest, Re.findall text = (ds ++ fr) :: rest.
Proof.
  intros (pre & rest & -> & Hpre & Hne & Hd & Hs & Hf).
  unfold Re.findall.
  change ("$" ++ ds ++ fr ++ rest) with (String "$" (ds ++ fr ++ rest)).
  rewrite (findall_skip_prefix _ _ (no_match_start_dollar _ _ Hpre)).
  apply findall_head. now apply match_at_currency.
Qed.

Lemma findall_no_currency (text : string) :
  no_currency text -> Re.findall text = [].
Proof.
  intros H. unfold Re.findall.
  rewrite <- (append_nil_r text). now rewrite (findall_skip_prefix _ _ H).
Qed.

Lemma float_of_str_literal (ds fr rest : string) :
  ds <> "" ->
  all_digits ds = true ->
  fraction_of fr rest ->
  float_of_str (ds ++ fr) = Ok (decimal_value ds fr).
Proof.
  intros Hne Hd Hf. unfold float_of_str.
  destruct ds as [|c ds]; [now elim Hne|].
  destruct Hf as [d1 d2 r H1 H2 | d1 r H1 Hr | r Hr].
  - rewrite (span_digits_app _ _ Hd) by reflexivity.
    cbn [Re.span_digits]. rewrite H1, H2. reflexivity.
  - rewrite (span_digits_app _ _ Hd) by reflexivity.
    cbn [Re.span_digits]. rewrite H1. reflexivity.
  - rewrite (span_digits_app _ _ Hd) by reflexivity. reflexivity.
Qed.

Lemma no_currency_nil : no_currency "".
Proof. intros [|c u] v E; discriminate E. Qed.

Lemma starts_with_digit_app (pre next : string) :
  starts_with_digit next = false ->
  starts_with_digit pre = false ->
  starts_with_digit (pre ++ next) = false.
Proof. destruct pre; simpl; auto. Qed.

(** Every text has no match, or has a leftmost one. *)
Lemma currency_cases (text : string) :
  no_currency text \/ exists ds fr, first_currency text ds fr.
Proof.
  induction text as [|c t IH]; [left; exact no_currency_nil|].
  destruct (Ascii.eqb_spec c "$") as [->|Hc].
  - destruct (starts_with_digit t) eqn:Hs.
    + right. pose proof (span_digits_split t) as Hsp.
      destruct (Re.span_digits t) as [ds r]. destruct Hsp as (-> & Hd & Hr).
      destruct (fraction_split r) as (rest & Er & Hf).
      exists ds, (Re.fraction r), "", rest. repeat split.
      * simpl. now rewrite <- Er.
      * intros [|x u] v E; discriminate E.
      * intros ->. simpl in Hs. congruence.
      * exact Hd.
      * now rewrite <- Er.
      * exact Hf.
    + destruct IH as [Hno | (ds & fr & pre & rest & -> & Hpre & Hrest)].
      * left. intros [|x u] v E; simpl in E; inversion E; subst.
        -- now rewrite append_nil_r.
        -- now apply (Hno u v).
      * right. exists ds, fr, (String "$" pre), rest. repeat split;
          try tauto.
        intros [|x u] v E; simpl in E; inversion E; subst.
        -- destruct v as [|d v]; [reflexivity|]. exact Hs.
        -- now apply (Hpre u v).
  - destruct IH as [Hno | (ds & fr & pre & rest & -> & Hpre & Hrest)].
    + left. intros [|x u] v E; simpl in E; inversion E; subst.
      * now elim Hc.
      * now apply (Hno u v).
    + right. exists ds, fr, (String c pre), rest. repeat split; try tauto.
      intros [|x u] v E; simpl in E; inversion E; subst.
      * now elim Hc.
      * now apply (Hpre u v).
Qed.

End Scanner.

Section Extractor.

Lemma collect_snippets_wf (entries : list json) :
  forallb wf_entry entries = true ->
  collect_snippets entries = Ok (map JStr (snippets entries)).
Proof.
  induction entries as [|entry rest IH]; simpl; [reflexivity|].
  intros H. apply andb_true_iff in H as [He Hrest].
  rewrite (IH Hrest).
  destruct entry as [| | | | | |fs]; try discriminate He. simpl in *.
  destruct (Py.assoc "snippet" fs) as [[| | | |s| |]|]; try discriminate He;
    reflexivity.
Qed.

Lemma join_strings (sep : string) (texts : list string) :
  Py.join sep (map JStr texts) = Ok (String.concat sep texts).
Proof.
  induction texts as [|t rest IH]; [reflexivity|].
  destruct rest as [|t' rest]; [reflexivity|].
  change (Py.join sep (map JStr (t :: t' :: rest)))
    with (res_bind (Py.join sep (map JStr (t' :: rest)))
            (fun u => Ok (t ++ sep ++ u))).
  now rewrite IH.
Qed.

(** On a payload of the provider's shape [full_text] is the snippets,
    in order, joined by single spaces. *)
Lemma full_text_wf (payload : json) :
  wf_payload payload = true ->
  full_text payload
  = Ok (String.concat " " (snippets (organic_entries payload))).
Proof.
  intros H. destruct payload as [| | | | | |fs]; try discriminate H.
  unfold full_text, organic_entries. simpl in *.
  destruct (Py.assoc "organic_results" fs) as [[| | | | |entries|]|];
    try discriminate H; simpl.
  - rewrite (collect_snippets_wf _ H). simpl. apply join_strings.
  - reflexivity.
Qed.

Lemma extract_of_text (payload : json) (text : string) :
  full_text payload = Ok text ->
  (no_currency text -> extract_price_or_dividend payload = Ok None) /\
  (forall ds fr, first_currency text ds fr ->
     extract_price_or_dividend payload = Ok (Some (decimal_value ds fr))).
Proof.
  intros Ht. unfold extract_price_or_dividend. rewrite Ht. simpl. split.
  - intros Hno. now rewrite (findall_no_currency _ Hno).
  - intros ds fr Hfc.
    destruct (findall_first_currency _ _ _ Hfc) as (rest & ->).
    destruct Hfc as (pre & tl & _ & _ & Hne & Hd & _ & Hf).
    now rewrite (float_of_str_literal _ _ _ Hne Hd Hf).
Qed.

(** C9: on every payload of the provider's shape, whatever fields are
    missing, the extractor returns a value or absent and does not raise;
    it reads exactly the snippets that are there, and a payload without
    [organic_results] (an error payload) gives absent. *)
Theorem extract_price_or_dividend_total (payload : json) :
  wf_payload payload = true ->
  (exists v, extract_price_or_dividend payload = Ok v) /\
  full_text payload
  = Ok (String.concat " " (snippets (organic_entries payload))) /\
  (organic_entries payload = [] ->
   extract_price_or_dividend payload = Ok None).
Proof.
  intros Hwf. pose proof (full_text_wf _ Hwf) as Ht.
  destruct (extract_of_text payload _ Ht) as [Hn Hs].
  split; [|split].
  - destruct (currency_cases
                (String.concat " " (snippets (organic_entries payload))))
      as [Hno | (ds & fr & Hfc)]; eauto.
  - exact Ht.
  - intros He. apply Hn. rewrite He. exact no_currency_nil.
Qed.

End Extractor.

(** The leftmost match of the example text, spelled out. *)
Example first_currency_example :
  first_currency "price rose to $123.45 yesterday" "123" ".45".
Proof.
  exists "price rose to ", " yesterday". repeat split.
  - intros u v E.
    repeat (destruct u as [|? u]; simpl in E; try discriminate E;
            injection E as ? E; subst).
  - discriminate.
  - now constructor.
Qed.

Lemma extract_price_or_dividend_total_witness :
  let payload :=
    JObj [("search_metadata", JObj [("status", JStr "Success")]);
          ("organic_results",
           JArr [JObj [("title", JStr "AAPL quote")];
                 JObj [("snippet", JStr "last close $5.5")]])] in
  wf_payload payload = true /\
  (exists v, extract_price_or_dividend payload = Ok v) /\
  full_text payload
  = Ok (String.concat " " (snippets (organic_entries payload))) /\
  (organic_entries payload = [] ->
   extract_price_or_dividend payload = Ok None).
Proof.
  intros payload. split; [reflexivity|].
  exact (extract_price_or_dividend_total payload eq_refl).
Defined.

(** C9 (as stated) fails: a dictionary whose [organic_results] is not a
    sequence makes the [for] loop raise. *)
Lemma extract_price_or_dividend_null_results :
  extract_price_or_dividend (JObj [("organic_results", JNull)])
  = Raise TypeError.
Proof. reflexivity. Qed.

(** So does a snippet that is not a string, at [join]. *)
Example extract_price_or_dividend_null_snippet :
  extract_price_or_dividend
    (JObj [("organic_results", JArr [JObj [("snippet", JNull)]])])
  = Raise TypeError.
Proof. reflexivity. Qed.

(** ** Subtraction and comparison of binary64 values *)

Section FloatFacts.

Local Abbreviation emin := (-1074).

Lemma fexp_eq (e : Z) : fexp Float.prec Float.emax e = Z.max (e - 53) emin.
Proof. reflexivity. Qed.

Lemma digits2_bounds (p : positive) :
  2 ^ (Zpos (digits2_pos p) - 1) <= Zpos p < 2 ^ Zpos (digits2_pos p).
Proof.
  induction p as [p IH|p IH|]; cbn [digits2_pos].
  - rewrite Pos2Z.inj_succ. replace (Z.succ (Zpos (digits2_pos p)) - 1)
      with (Z.succ (Zpos (digits2_pos p) - 1)) by lia.
    rewrite !Z.pow_succ_r by lia. lia.
  - rewrite Pos2Z.inj_succ. replace (Z.succ (Zpos (digits2_pos p)) - 1)
      with (Z.succ (Zpos (digits2_pos p) - 1)) by lia.
    rewrite !Z.pow_succ_r by lia. lia.
  - simpl. lia.
Qed.

Lemma shr_m_shr_1 (mrs : shr_record) :
  0 <= shr_m mrs -> shr_m (shr_1 mrs) = shr_m mrs / 2.
Proof.
  destruct mrs as [m r s]. simpl.
  destruct m as [|[p|p|]|p]; intros H; cbn [shr_m]; try lia.
  - reflexivity.
  - apply Z.div_unique with 1; lia.
  - apply Z.div_unique with 0; lia.
  - reflexivity.
Qed.

Lemma pow2_xO (p : positive) : 2 ^ Zpos p~0 = 2 ^ Zpos p * 2 ^ Zpos p.
Proof.
  replace (Zpos p~0) with (Zpos p + Zpos p) by lia.
  apply Z.pow_add_r; lia.
Qed.

Lemma pow2_xI (p : positive) : 2 ^ Zpos p~1 = 2 * (2 ^ Zpos p * 2 ^ Zpos p).
Proof.
  replace (Zpos p~1) with (Z.succ (Zpos p + Zpos p)) by lia.
  rewrite Z.pow_succ_r by lia. rewrite Z.pow_add_r by lia. reflexivity.
Qed.

Lemma shr_m_iter (p : positive) :
  forall mrs : shr_record,
    0 <= shr_m mrs ->
    shr_m (iter_pos shr_1 p mrs) = shr_m mrs / 2 ^ Zpos p.
Proof.
  induction p as [p IH|p IH|]; intros mrs H; cbn [iter_pos].
  - assert (H1 : 0 <= shr_m (shr_1 mrs))
      by (rewrite shr_m_shr_1 by assumption; apply Z.div_pos; lia).
    assert (H2 : 0 <= shr_m (iter_pos shr_1 p (shr_1 mrs)))
      by (rewrite IH by assumption; apply Z.div_pos; lia).
    rewrite IH, IH, shr_m_shr_1 by assumption.
    rewrite !Z.div_div by lia. now rewrite pow2_xI.
  - assert (H2 : 0 <= shr_m (iter_pos shr_1 p mrs))
      by (rewrite IH by assumption; apply Z.div_pos; lia).
    rewrite IH, IH by assumption.
    rewrite !Z.div_div by lia. now rewrite pow2_xO.
  - rewrite shr_m_shr_1 by assumption. reflexivity.
Qed.

Lemma shr_m_of_loc (m : Z) (l : location) :
  shr_m (shr_record_of_loc m l) = m.
Proof. now destruct l as [|[]]. Qed.

Lemma Zdigits2_bound (m : Z) : 0 < m -> 2 ^ (Zdigits2 m - 1) <= m.
Proof.
  destruct m as [|p|p]; try lia. intros _. apply digits2_bounds.
Qed.

Lemma shr_fexp_above_min (m e : Z) (l : location) :
  above_min m e ->
  above_min (shr_m (fst (shr_fexp Float.prec Float.emax m e l)))
            (snd (shr_fexp Float.prec Float.emax m e l)).
Proof.
  intros [Hm He]. unfold shr_fexp, shr. rewrite fexp_eq.
  pose proof (Zdigits2_bound m Hm) as Hd.
  destruct (Z.max (Zdigits2 m + e - 53) emin - e) as [|p|p] eqn:En;
    cbn [fst snd]; try (rewrite shr_m_of_loc; now split).
  rewrite shr_m_iter by (rewrite shr_m_of_loc; lia).
  rewrite shr_m_of_loc. split; [|lia].
  apply Z.div_str_pos. split; [apply Z.pow_pos_nonneg; lia|].
  destruct (Z.le_gt_cases emin (Zdigits2 m + e - 53)) as [Hc|Hc].
  - replace (Zpos p) with (Zdigits2 m - 53) by lia.
    apply Z.le_trans with (2 ^ (Zdigits2 m - 1)); [|exact Hd].
    apply Z.pow_le_mono_r; lia.
  - replace (Zpos p) with (emin - e) by lia. apply He. lia.
Qed.

Lemma round_nearest_even_ge (m : Z) (l : location) :
  m <= round_nearest_even m l.
Proof.
  destruct l as [|[]]; simpl; try lia. destruct (Z.even m); lia.
Qed.

Lemma above_min_le (m m' e : Z) : above_min m e -> m <= m' -> above_min m' e.
Proof. intros [H1 H2] H. split; [lia|]. intros He. specialize (H2 He). lia. Qed.

Lemma binary_round_aux_signed (s : bool) (mx ex : Z) (lx : location) :
  above_min mx ex ->
  signed s (binary_round_aux Float.prec Float.emax s mx ex lx).
Proof.
  intros H. unfold binary_round_aux.
  pose proof (shr_fexp_above_min mx ex lx H) as H1.
  destruct (shr_fexp Float.prec Float.emax mx ex lx) as [mrs1 e1].
  cbn [fst snd] in H1.
  pose proof (above_min_le _ _ _ H1
                (round_nearest_even_ge (shr_m mrs1)
                   (loc_of_shr_record mrs1))) as H2.
  pose proof (shr_fexp_above_min _ _ loc_Exact H2) as H3.
  destruct (shr_fexp Float.prec Float.emax
              (round_nearest_even (shr_m mrs1) (loc_of_shr_record mrs1))
              e1 loc_Exact) as [mrs2 e2].
  cbn [fst snd] in H3. destruct H3 as [H3 _].
  destruct (shr_m mrs2) as [|m|m]; try lia.
  now destruct (e2 <=? Float.emax - Float.prec).
Qed.

Lemma binary_round_signed (s : bool) (mx : positive) (ex : Z) :
  emin <= ex ->
  signed s (binary_round Float.prec Float.emax s mx ex).
Proof.
  intros He. unfold binary_round, shl_align. rewrite fexp_eq.
  destruct (Z.max (Zpos (digits2_pos mx) + ex - 53) emin - ex) eqn:En;
    apply binary_round_aux_signed; split; lia.
Qed.

Lemma ltb_zero_signed (s : bool) (r : spec_float) :
  signed s r -> Float.ltb (Float.of_Z 0) r = negb s.
Proof.
  destruct r as [s'|s'|  |s' m e]; simpl; try contradiction;
    intros ->; now destruct s.
Qed.

Lemma ltb_zero_normalize (z e : Z) :
  emin <= e ->
  Float.ltb (Float.of_Z 0) (binary_normalize Float.prec Float.emax z e false)
  = (0 <? z).
Proof.
  intros He. destruct z as [|p|p]; cbn [binary_normalize].
  - reflexivity.
  - now rewrite (ltb_zero_signed false) by now apply binary_round_signed.
  - now rewrite (ltb_zero_signed true) by now apply binary_round_signed.
Qed.

Lemma pos_iter_xO (m d : positive) :
  Zpos (Pos.iter xO m d) = Zpos m * 2 ^ Zpos d.
Proof.
  induction d as [|d IH] using Pos.peano_ind.
  - simpl. lia.
  - rewrite Pos.iter_succ, Pos2Z.inj_succ, Z.pow_succ_r by lia.
    rewrite Pos2Z.inj_xO, IH. lia.
Qed.

Lemma shl_align_value (mx : positive) (ex ez : Z) :
  ez <= ex ->
  Zpos (fst (shl_align mx ex ez)) = Zpos mx * 2 ^ (ex - ez).
Proof.
  intros H. unfold shl_align. destruct (ez - ex) as [|d|d] eqn:E;
    cbn [fst]; try lia.
  - replace (ex - ez) with 0 by lia. lia.
  - replace (ex - ez) with (Zpos d) by lia. apply pos_iter_xO.
Qed.

Lemma bounded_facts (m : positive) (e : Z) :
  bounded Float.prec Float.emax m e = true ->
  emin <= e /\ Zpos m < 2 ^ 53 /\ (emin < e -> 2 ^ 52 <= Zpos m).
Proof.
  unfold bounded, canonical_mantissa. rewrite fexp_eq.
  intros H. apply andb_true_iff in H as [H _]. apply Z.eqb_eq in H.
  pose proof (digits2_bounds m) as [Hlo Hhi].
  split; [lia|]. split.
  - apply Z.lt_le_trans with (2 ^ Zpos (digits2_pos m)); [exact Hhi|].
    apply Z.pow_le_mono_r; lia.
  - intros He. replace 52 with (Zpos (digits2_pos m) - 1) by lia.
    exact Hlo.
Qed.

Lemma compare_aligned (mx my : positive) (ex ey : Z) :
  bounded Float.prec Float.emax mx ex = true ->
  bounded Float.prec Float.emax my ey = true ->
  (Zpos mx * 2 ^ (ex - Z.min ex ey) ?= Zpos my * 2 ^ (ey - Z.min ex ey))
  = match ex ?= ey with
    | Lt => Lt
    | Gt => Gt
    | Eq => Pos.compare_cont Eq mx my
    end.
Proof.
  intros Hx Hy.
  destruct (bounded_facts _ _ Hx) as (Hex & Hmx & Hnx).
  destruct (bounded_facts _ _ Hy) as (Hey & Hmy & Hny).
  change (2 ^ 53) with 9007199254740992 in *.
  change (2 ^ 52) with 4503599627370496 in *.
  destruct (Z.compare_spec ex ey) as [->|Hlt|Hgt].
  - rewrite Z.min_id, Z.sub_diag, !Z.mul_1_r. reflexivity.
  - rewrite Z.min_l, Z.sub_diag, Z.mul_1_r by lia.
    assert (Hk : 2 ^ 1 <= 2 ^ (ey - ex)) by (apply Z.pow_le_mono_r; lia).
    change (2 ^ 1) with 2 in Hk. apply Z.compare_lt_iff.
    specialize (Hny ltac:(lia)). nia.
  - rewrite Z.min_r, Z.sub_diag, Z.mul_1_r by lia.
    assert (Hk : 2 ^ 1 <= 2 ^ (ex - ey)) by (apply Z.pow_le_mono_r; lia).
    change (2 ^ 1) with 2 in Hk. apply Z.compare_gt_iff.
    specialize (Hnx ltac:(lia)). nia.
Qed.

Lemma ltb_of_compare (a b : Z) :
  (0 <? a - b) = match b ?= a with Lt => true | _ => false end.
Proof.
  destruct (Z.compare_spec b a); destruct (Z.ltb_spec 0 (a - b)); lia.
Qed.

Lemma sub_finite_positive (sx sy : bool) (mx my : positive) (ex ey : Z) :
  bounded Float.prec Float.emax mx ex = true ->
  bounded Float.prec Float.emax my ey = true ->
  Float.ltb (Float.of_Z 0)
    (Float.sub (S754_finite sx mx ex) (S754_finite sy my ey))
  = Float.ltb (S754_finite sy my ey) (S754_finite sx mx ex).
Proof.
  intros Hx Hy.
  destruct (bounded_facts _ _ Hx) as (Hex & _).
  destruct (bounded_facts _ _ Hy) as (Hey & _).
  unfold Float.sub, SFsub. rewrite ltb_zero_normalize by lia.
  rewrite !shl_align_value by lia.
  pose proof (compare_aligned my mx ey ex Hy Hx) as Hc.
  rewrite (Z.min_comm ey ex) in Hc.
  set (a := Zpos mx * 2 ^ (ex - Z.min ex ey)) in *.
  set (b := Zpos my * 2 ^ (ey - Z.min ex ey)) in *.
  assert (Ha : 0 < a) by (apply Z.mul_pos_pos; [lia|apply Z.pow_pos_nonneg; lia]).
  assert (Hb : 0 < b) by (apply Z.mul_pos_pos; [lia|apply Z.pow_pos_nonneg; lia]).
  unfold Float.ltb, SFltb, SFcompare, cond_Zopp.
  destruct sx, sy.
  - replace (- a - - b) with (b - a) by lia. rewrite ltb_of_compare.
    rewrite Z.compare_antisym, Hc. now destruct (ey ?= ex).
  - destruct (Z.ltb_spec 0 (- a - b)); [lia|reflexivity].
  - destruct (Z.ltb_spec 0 (a - - b)); [reflexivity|lia].
  - rewrite ltb_of_compare, Hc. now destruct (ey ?= ex).
Qed.

(** The sign test of [compare] is the comparison of its operands:
    [x - y > 0] exactly when [y < x], for all binary64 values. *)
Lemma sub_positive_iff (x y : float) :
  Float.valid x = true ->
  Float.valid y = true ->
  Float.ltb (Float.of_Z 0) (Float.sub x y) = Float.ltb y x.
Proof.
  intros Hx Hy.
  destruct x as [sx|sx| |sx mx ex], y as [sy|sy| |sy my ey];
    try (now apply sub_finite_positive);
    try (destruct sx; reflexivity);
    try (destruct sy; reflexivity);
    try (destruct sx, sy; reflexivity);
    reflexivity.
Qed.

End FloatFacts.


(** ** The comparison endpoint *)

Section Compare.

Lemma SFcompare_antisym (x y : float) :
  SFcompare y x = option_map CompOpp (SFcompare x y).
Proof.
  destruct x as [sx|sx| |sx mx ex], y as [sy|sy| |sy my ey]; simpl;
    try reflexivity;
    try (destruct sx; reflexivity);
    try (destruct sy; reflexivity);
    try (destruct sx, sy; reflexivity).
  destruct sx, sy; try reflexivity; simpl;
    rewrite (Z.compare_antisym ex ey); destruct (ex ?= ey); simpl;
    try reflexivity; f_equal.
  - change (Pos.compare_cont Eq my mx) with (Pos.compare my mx).
    change (Pos.compare_cont Eq mx my) with (Pos.compare mx my).
    now rewrite (Pos.compare_antisym mx my), CompOpp_involutive.
  - change (Pos.compare_cont Eq my mx) with (Pos.compare my mx).
    change (Pos.compare_cont Eq mx my) with (Pos.compare mx my).
    now rewrite (Pos.compare_antisym mx my).
Qed.

Lemma SFcompare_none (x y : float) :
  SFcompare x y = None -> Float.is_nan x = true \/ Float.is_nan y = true.
Proof.
  destruct x as [sx|sx| |sx mx ex], y as [sy|sy| |sy my ey]; simpl;
    try discriminate; auto.
Qed.

Lemma ltb_swap (x y : float) :
  Float.is_nan x = false -> Float.is_nan y = false ->
  Float.eqb x y = false ->
  Float.ltb y x = negb (Float.ltb x y).
Proof.
  intros Hx Hy. unfold Float.eqb, Float.ltb, SFeqb, SFltb.
  rewrite (SFcompare_antisym x y).
  destruct (SFcompare x y) as [[]|] eqn:E; simpl; try reflexivity;
    try discriminate.
  intros _. destruct (SFcompare_none _ _ E); congruence.
Qed.

Lemma eqb_not_ltb (x y : float) :
  Float.eqb x y = true -> Float.ltb y x = false.
Proof.
  unfold Float.eqb, Float.ltb, SFeqb, SFltb.
  rewrite (SFcompare_antisym x y).
  destruct (SFcompare x y) as [[]|]; simpl; try reflexivity; discriminate.
Qed.

(** The local [winner] in terms of the operands. *)
Lemma compare_winner_ltb (a b : string) (x y : float) :
  Float.valid x = true -> Float.valid y = true ->
  Server.compare_winner
    {| Server.CompareInput.stock_a_name := a;
       Server.CompareInput.stock_a_return := x;
       Server.CompareInput.stock_b_name := b;
       Server.CompareInput.stock_b_return := y |}
  = if Float.ltb y x then a else b.
Proof.
  intros Hx Hy. unfold Server.compare_winner, Server.compare_diff.
  cbn [Server.CompareInput.stock_a_name Server.CompareInput.stock_a_return
       Server.CompareInput.stock_b_name Server.CompareInput.stock_b_return].
  now rewrite sub_positive_iff.
Qed.

(** C4 (as amended): for two returns that are different numbers,
    swapping the operands does not change whether a given name wins. *)
Theorem compare_winner_swap (a b : string) (x y : float) :
  Float.valid x = true -> Float.valid y = true ->
  Float.is_nan x = false -> Float.is_nan y = false ->
  Float.eqb x y = false ->
  Server.compare_winner
    {| Server.CompareInput.stock_a_name := a;
       Server.CompareInput.stock_a_return := x;
       Server.CompareInput.stock_b_name := b;
       Server.CompareInput.stock_b_return := y |} = a
  <->
  Server.compare_winner
    {| Server.CompareInput.stock_a_name := b;
       Server.CompareInput.stock_a_return := y;
       Server.CompareInput.stock_b_name := a;
       Server.CompareInput.stock_b_return := x |} = a.
Proof.
  intros Vx Vy Nx Ny Hne.
  rewrite !compare_winner_ltb by assumption.
  rewrite (ltb_swap x y Nx Ny Hne).
  destruct (Float.ltb x y); simpl; tauto.
Qed.

(** C5 (as amended): the endpoint returns one field, [summary]; its text
    names the operand with the strictly larger return (the second
    operand on a tie), then the absolute difference with two decimals,
    then both returns. *)
Theorem compare_summary_only (a b : string) (x y : float) :
  Float.valid x = true -> Float.valid y = true ->
  let data :=
    {| Server.CompareInput.stock_a_name := a;
       Server.CompareInput.stock_a_return := x;
       Server.CompareInput.stock_b_name := b;
       Server.CompareInput.stock_b_return := y |} in
  let winner := if Float.ltb y x then a else b in
  Server.compare data
  = Ok (JObj [("summary",
               JStr (winner ++ " outperformed by "
                     ++ Float.format_2f (Float.abs (Float.sub x y))
                     ++ "%. Total returns were: "
                     ++ a ++ " = " ++ Float.format_2f x ++ "%, "
                     ++ b ++ " = " ++ Float.format_2f y ++ "%."))]) /\
  (Float.eqb x y = true -> winner = b).
Proof.
  intros Vx Vy data winner. split.
  - unfold Server.compare, Server.compare_summary.
    unfold data at 1. rewrite (compare_winner_ltb a b x y Vx Vy).
    reflexivity.
  - intros He. unfold winner. now rewrite (eqb_not_ltb x y He).
Qed.

End Compare.

Lemma compare_winner_swap_witness :
  let x := Float.of_Z 22 in
  let y := Float.of_decimal 65 1 in
  Float.valid x = true /\ Float.valid y = true /\
  Float.is_nan x = false /\ Float.is_nan y = false /\
  Float.eqb x y = false /\
  (Server.compare_winner
     {| Server.CompareInput.stock_a_name := "AAPL";
        Server.CompareInput.stock_a_return := x;
        Server.CompareInput.stock_b_name := "MSFT";
        Server.CompareInput.stock_b_return := y |} = "AAPL"
   <->
   Server.compare_winner
     {| Server.CompareInput.stock_a_name := "MSFT";
        Server.CompareInput.stock_a_return := y;
        Server.CompareInput.stock_b_name := "AAPL";
        Server.CompareInput.stock_b_return := x |} = "AAPL").
Proof.
  intros x y. do 5 (split; [reflexivity|]).
  exact (compare_winner_swap "AAPL" "MSFT" x y
           eq_refl eq_refl eq_refl eq_refl eq_refl).
Defined.

(** C4 (as stated) fails on a tie: each order names its own second
    operand, so AAPL loses as first operand and wins as second. *)
Lemma compare_winner_tie_depends_on_order :
  ~ (Server.compare_winner
       {| Server.CompareInput.stock_a_name := "AAPL";
          Server.CompareInput.stock_a_return := Float.of_Z 5;
          Server.CompareInput.stock_b_name := "MSFT";
          Server.CompareInput.stock_b_return := Float.of_Z 5 |} = "AAPL"
     <->
     Server.compare_winner
       {| Server.CompareInput.stock_a_name := "MSFT";
          Server.CompareInput.stock_a_return := Float.of_Z 5;
          Server.CompareInput.stock_b_name := "AAPL";
          Server.CompareInput.stock_b_return := Float.of_Z 5 |} = "AAPL").
Proof.
  intros [_ H]. specialize (H eq_refl). vm_compute in H. discriminate H.
Qed.

Lemma compare_summary_only_witness :
  let x := Float.of_Z 22 in
  let y := Float.of_decimal 65 1 in
  Float.valid x = true /\ Float.valid y = true /\
  Server.compare
    {| Server.CompareInput.stock_a_name := "AAPL";
       Server.CompareInput.stock_a_return := x;
       Server.CompareInput.stock_b_name := "MSFT";
       Server.CompareInput.stock_b_return := y |}
  = Ok (JObj [("summary",
               JStr "AAPL outperformed by 15.50%. Total returns were: AAPL = 22.00%, MSFT = 6.50%.")]).
Proof.
  intros x y. do 2 (split; [reflexivity|]).
  exact (proj1 (compare_summary_only "AAPL" "MSFT" x y eq_refl eq_refl)).
Defined.

(** C5 (as stated) fails: the returned payload has no [winner] and no
    [margin] field. *)
Lemma compare_has_no_structured_fields :
  exists payload,
    Server.compare
      {| Server.CompareInput.stock_a_name := "AAPL";
         Server.CompareInput.stock_a_return := Float.of_Z 22;
         Server.CompareInput.stock_b_name := "MSFT";
         Server.CompareInput.stock_b_return := Float.of_decimal 65 1 |}
    = Ok payload /\
    Py.getitem payload "winner" = Raise (KeyError "winner") /\
    Py.getitem payload "margin" = Raise (KeyError "margin").
Proof. eexists. repeat split. Qed.

(** ** The scenario of the design document, end to end *)

(** The binary64 value nearest to 123.45, [0x1.edccccccccccdp+6]. *)
Example of_decimal_123_45 :
  Float.of_decimal 12345 2 = S754_finite false 8687021468732621 (-46).
Proof. reflexivity. Qed.

Example format_2f_rounds_half_even :
  Float.format_2f (Float.of_decimal 2675 3) = "2.67" /\
  Float.format_2f (Float.of_decimal 1005 3) = "1.00" /\
  Float.format_2f (Float.of_decimal 155 1) = "15.50".
Proof. repeat split. Qed.

(** AAPL 100 to 120 with dividend 2, MSFT 200 to 210 with dividend 3:
    total returns 22 and 6.5, AAPL ahead by 15.5. *)
Example scenario_end_to_end :
  fst (Collaborators.run [search_call scenario_queries])
  = Ok (Compared
          (JObj [("summary",
                  JStr "AAPL outperformed by 15.50%. Total returns were: AAPL = 22.00%, MSFT = 6.50%.")])).
Proof. vm_compute. reflexivity. Qed.

(** Seven calculation calls are placed, in the order of the chain. *)
Example scenario_calls :
  map (fun ev => match ev with
                 | Posted endpoint _ => endpoint
                 | Searched _ => "search"
                 end)
      (filter is_post (snd (Collaborators.run [search_call scenario_queries])))
  = [ "price-return"; "dividend-yield"; "total-return";
      "price-return"; "dividend-yield"; "total-return"; "compare" ].
Proof. vm_compute. reflexivity. Qed.

(** With no proposed call the session ends at once. *)
Example no_tool_calls : Collaborators.run [] = (Ok NoToolCalls, []).
Proof. reflexivity. Qed.

(** * Further properties of the dispatcher and the session *)

Section DispatchFacts.

Variable search_provider : history -> json -> json.
Variable calculation_service : history -> string -> json -> json.

Lemma responses_length (qs : list json) :
  forall h, List.length (responses search_provider h qs) = List.length qs.
Proof.
  induction qs as [|q qs IH]; intros h; simpl; [reflexivity|].
  now rewrite IH.
Qed.

Lemma responses_nth (qs : list json) :
  forall (h : history) (k : nat),
    (k < List.length qs)%nat ->
    nth k (responses search_provider h qs) JNull
    = search_provider (h ++ map Searched (firstn k qs))%list
        (nth k qs JNull).
Proof.
  induction qs as [|q qs IH]; intros h k Hk; simpl in Hk; [lia|].
  destruct k as [|k]; simpl.
  - now rewrite app_nil_r.
  - rewrite IH by lia. now rewrite <- app_assoc.
Qed.

(** A search call places one search per query, in the order of the
    queries, and returns the responses in that order: the response at
    position [k] answers query [k], asked after the queries before it. *)
Theorem search_one_response_per_query (queries : list string)
    (h : history) :
  exists rs,
    tool_handler search_provider calculation_service "search_stock_data"
      (JObj [("query", JArr (map JStr queries))]) h
    = (Ok (JArr rs), (h ++ map Searched (map JStr queries))%list) /\
    List.length rs = List.length queries /\
    forall k, (k < List.length queries)%nat ->
      nth k rs JNull
      = search_provider
          (h ++ map Searched (map JStr (firstn k queries)))%list
          (JStr (nth k queries "")).
Proof.
  exists (responses search_provider h (map JStr queries)). split; [|split].
  - now apply (tool_handler_search search_provider calculation_service
                 _ (JArr (map JStr queries))).
  - now rewrite responses_length, length_map.
  - intros k Hk. rewrite responses_nth by now rewrite length_map.
    rewrite firstn_map. f_equal.
    rewrite (nth_indep _ JNull (JStr "")) by now rewrite length_map.
    apply map_nth.
Qed.

(** Without a [query] key the search tool raises [KeyError] before any
    search is placed. *)
Theorem search_without_query_raises (fields : list (string * json))
    (h : history) :
  Py.assoc "query" fields = None ->
  tool_handler search_provider calculation_service "search_stock_data"
    (JObj fields) h
  = (Raise (KeyError "query"), h).
Proof.
  intros Hq. unfold tool_handler. simpl. unfold bind, lift. simpl.
  now rewrite Hq.
Qed.

Lemma groups_length (s : string) :
  List.length (Py.groups s)
  = (code_points s + if Py.starts_with_continuation s then 1 else 0)%nat.
Proof.
  induction s as [|c s IH]; [reflexivity|].
  cbn [Py.groups code_points Py.starts_with_continuation].
  destruct (Py.groups s) as [|g rest] eqn:Eg.
  - simpl in IH. destruct (Py.is_continuation c); simpl; lia.
  - cbn [List.length] in IH.
    destruct (Py.starts_with_continuation s);
      destruct (Py.is_continuation c); cbn [List.length]; lia.
Qed.

Lemma groups_concat (s : string) : String.concat "" (Py.groups s) = s.
Proof.
  induction s as [|c s IH]; [reflexivity|].
  cbn [Py.groups]. destruct (Py.groups s) as [|g rest] eqn:Eg.
  - simpl in IH. now subst s.
  - destruct (Py.starts_with_continuation s).
    + rewrite <- IH. now destruct rest.
    + rewrite <- IH. reflexivity.
Qed.

(** When [query] is one string instead of a list of strings, the loop
    runs over its characters: one search is placed per character (code
    point) of the string, each character with all its bytes and in the
    order of the string. *)
Theorem search_string_query_per_character (s : string) (h : history) :
  Py.starts_with_continuation s = false ->
  exists rs,
    tool_handler search_provider calculation_service "search_stock_data"
      (JObj [("query", JStr s)]) h
    = (Ok (JArr rs), (h ++ map Searched (map JStr (Py.groups s)))%list) /\
    List.length rs = code_points s /\
    List.length (Py.groups s) = code_points s /\
    String.concat "" (Py.groups s) = s.
Proof.
  intros Hs.
  assert (Hlen : List.length (Py.groups s) = code_points s)
    by (rewrite groups_length, Hs; lia).
  exists (responses search_provider h (Py.chars s)). split; [|split; [|split]].
  - now apply (tool_handler_search search_provider calculation_service
                 _ (JStr s)).
  - unfold Py.chars. now rewrite responses_length, length_map.
  - exact Hlen.
  - apply groups_concat.
Qed.

Lemma tool_handler_calculation (name endpoint : string) (arguments : json)
    (h : history) :
  In (name, endpoint) calculation_endpoints ->
  tool_handler search_provider calculation_service name arguments h
  = (Ok (calculation_service h endpoint arguments),
     (h ++ [Posted endpoint arguments])%list).
Proof.
  intros [E|[E|[E|[E|[]]]]]; inversion E; subst; reflexivity.
Qed.

Lemma handle_call_calculation (c : tool_call) (endpoint : string)
    (m : metrics) (h : history) :
  In (name c, endpoint) calculation_endpoints ->
  handle_call search_provider calculation_service c m h
  = (Ok m, (h ++ [Posted endpoint (arguments c)])%list).
Proof.
  intros Hin. unfold handle_call, bind.
  rewrite (tool_handler_calculation _ _ _ _ Hin).
  destruct c as [n a]. simpl in *.
  destruct Hin as [E|[E|[E|[E|[]]]]]; inversion E; subst; reflexivity.
Qed.

(** A calculation tool never raises, whatever its arguments: they are
    posted unchanged to the tool's endpoint, the service's answer is the
    result, and in the dispatch loop that answer is dropped — the slots
    stay as they were. *)
Theorem calculation_tool_forwards (c : tool_call) (endpoint : string)
    (m : metrics) (h : history) :
  In (name c, endpoint) calculation_endpoints ->
  tool_handler search_provider calculation_service (name c) (arguments c) h
  = (Ok (calculation_service h endpoint (arguments c)),
     (h ++ [Posted endpoint (arguments c)])%list) /\
  handle_call search_provider calculation_service c m h
  = (Ok m, (h ++ [Posted endpoint (arguments c)])%list).
Proof.
  intros Hin. split.
  - now apply tool_handler_calculation.
  - now apply handle_call_calculation.
Qed.

Lemma handle_calls_calculation (calls : list tool_call) :
  forall (m : metrics) (h : history),
    Forall (fun c => exists endpoint,
                In (name c, endpoint) calculation_endpoints) calls ->
    exists posts,
      handle_calls search_provider calculation_service calls m h
      = (Ok m, (h ++ posts)%list) /\
      List.length posts = List.length calls /\
      forallb is_post posts = true.
Proof.
  induction calls as [|c calls IH]; intros m h Hall.
  - exists []. simpl. unfold ret. now rewrite app_nil_r.
  - inversion Hall as [|c' calls' [endpoint Hc] Hrest]; subst.
    destruct (IH m (h ++ [Posted endpoint (arguments c)])%list Hrest)
      as (posts & Hrun & Hlen & Hpost).
    exists (Posted endpoint (arguments c) :: posts). split; [|split].
    + cbn [handle_calls]. unfold bind at 1.
      rewrite (handle_call_calculation c endpoint m h Hc).
      rewrite Hrun. now rewrite <- app_assoc.
    + simpl. now rewrite Hlen.
    + simpl. exact Hpost.
Qed.

(** When the model proposes calculation tools only, the session places
    exactly those calls, fills no slot, and ends with the missing-data
    report. *)
Theorem session_of_calculation_calls (c : tool_call)
    (calls : list tool_call) (h : history) :
  Forall (fun c => exists endpoint,
              In (name c, endpoint) calculation_endpoints) (c :: calls) ->
  exists posts,
    session search_provider calculation_service (c :: calls) h
    = (Ok MissingData, (h ++ posts)%list) /\
    List.length posts = S (List.length calls) /\
    forallb is_post posts = true.
Proof.
  intros Hall.
  destruct (handle_calls_calculation (c :: calls) no_metrics h Hall)
    as (posts & Hrun & Hlen & Hpost).
  exists posts. split; [|split; assumption].
  now apply (session_gate_closed _ _ c calls no_metrics).
Qed.

End DispatchFacts.

(** [AAPL €] has eight bytes and six characters: the euro sign takes
    three bytes and is searched as one character. *)
Lemma search_string_query_per_character_witness :
  let s := "AAPL €" in
  Py.starts_with_continuation s = false /\
  String.length s = 8%nat /\
  code_points s = 6%nat /\
  exists rs,
    tool_handler Collaborators.echo_search Collaborators.local_service
      "search_stock_data" (JObj [("query", JStr s)]) []
    = (Ok (JArr rs), ([] ++ map Searched (map JStr (Py.groups s)))%list) /\
    List.length rs = code_points s /\
    List.length (Py.groups s) = code_points s /\
    String.concat "" (Py.groups s) = s.
Proof.
  intros s. do 3 (split; [reflexivity|]).
  exact (search_string_query_per_character Collaborators.echo_search
           Collaborators.local_service s [] eq_refl).
Defined.

Lemma search_without_query_raises_witness :
  Py.assoc "query" [("q", JStr "AAPL price")] = None /\
  tool_handler Collaborators.echo_search Collaborators.local_service
    "search_stock_data" (JObj [("q", JStr "AAPL price")]) []
  = (Raise (KeyError "query"), []).
Proof.
  split; [reflexivity|].
  exact (search_without_query_raises Collaborators.echo_search
           Collaborators.local_service [("q", JStr "AAPL price")] []
           eq_refl).
Defined.

Lemma calculation_tool_forwards_witness :
  let c := {| name := "calculate_total_return";
              arguments := JObj [("price_return", JInt 20)] |} in
  In (name c, "total-return") calculation_endpoints /\
  tool_handler Collaborators.echo_search Collaborators.local_service
    (name c) (arguments c) []
  = (Ok (Collaborators.local_service [] "total-return" (arguments c)),
     ([] ++ [Posted "total-return" (arguments c)])%list) /\
  handle_call Collaborators.echo_search Collaborators.local_service
    c no_metrics []
  = (Ok no_metrics, ([] ++ [Posted "total-return" (arguments c)])%list).
Proof.
  intros c.
  assert (Hin : In (name c, "total-return") calculation_endpoints).
  { right. right. left. reflexivity. }
  split; [exact Hin|].
  exact (calculation_tool_forwards Collaborators.echo_search
           Collaborators.local_service c "total-return" no_metrics []
           Hin).
Defined.

Lemma session_of_calculation_calls_witness :
  let c := {| name := "compare_returns"; arguments := JObj [] |} in
  Forall (fun c => exists endpoint,
              In (name c, endpoint) calculation_endpoints) [c; c] /\
  exists posts,
    session Collaborators.echo_search Collaborators.local_service
      [c; c] []
    = (Ok MissingData, ([] ++ posts)%list) /\
    List.length posts = 2%nat /\
    forallb is_post posts = true.
Proof.
  intros c.
  assert (Hc : exists endpoint,
             In (name c, endpoint) calculation_endpoints).
  { exists "compare". right. right. right. left. reflexivity. }
  assert (Hall : Forall (fun c => exists endpoint,
                     In (name c, endpoint) calculation_endpoints) [c; c]).
  { repeat constructor; exact Hc. }
  split; [exact Hall|].
  exact (session_of_calculation_calls Collaborators.echo_search
           Collaborators.local_service c [c] [] Hall).
Defined.

(** * Further properties of the gate, the chain and the mapper *)

Section GateFacts.

Variable search_provider : history -> json -> json.
Variable calculation_service : history -> string -> json -> json.

Lemma all_required_roles (m : metrics) :
  all_required m = true <->
  forall i, (i < 6)%nat ->
    exists x, role i m = Some x /\ Float.is_zero x = false.
Proof.
  unfold all_required, required. cbn [forallb]. split.
  - intros H.
    repeat (apply andb_true_iff in H as [? H]).
    intros i Hi.
    do 6 (destruct i as [|i];
          [cbn [role];
           match goal with
           | Ht : truthy ?v = true |- exists x, ?v = Some x /\ _ =>
               destruct v as [x|]; [|discriminate Ht];
               exists x; split; [reflexivity|];
               simpl in Ht; now destruct (Float.is_zero x)
           end|]).
    lia.
  - intros H.
    assert (T : forall i, (i < 6)%nat -> truthy (role i m) = true).
    { intros i Hi. destruct (H i Hi) as (x & -> & Hz). simpl.
      now rewrite Hz. }
    pose proof (T 0%nat ltac:(lia)) as T0.
    pose proof (T 1%nat ltac:(lia)) as T1.
    pose proof (T 2%nat ltac:(lia)) as T2.
    pose proof (T 3%nat ltac:(lia)) as T3.
    pose proof (T 4%nat ltac:(lia)) as T4.
    pose proof (T 5%nat ltac:(lia)) as T5.
    cbn [role] in *. now rewrite T0, T1, T2, T3, T4, T5.
Qed.

(** After the dispatch loop the session goes on to the calculations
    exactly when each of the six slots holds a value other than zero; a
    slot that is absent or holds 0.0 (of either sign) ends the session
    with the missing-data report and no further call. *)
Theorem session_gate_nonzero (c : tool_call) (calls : list tool_call)
    (m : metrics) (h h' : history) :
  handle_calls search_provider calculation_service (c :: calls)
    no_metrics h = (Ok m, h') ->
  ((forall i, (i < 6)%nat ->
      exists x, role i m = Some x /\ Float.is_zero x = false) ->
   session search_provider calculation_service (c :: calls) h
   = calculation_chain search_provider calculation_service m h') /\
  ((exists i, (i < 6)%nat /\
      (role i m = None \/
       exists x, role i m = Some x /\ Float.is_zero x = true)) ->
   session search_provider calculation_service (c :: calls) h
   = (Ok MissingData, h')).
Proof.
  intros Hloop. split.
  - intros Hall. apply (session_gate_open _ _ c calls m h h' Hloop).
    now apply all_required_roles.
  - intros (i & Hi & Hbad).
    apply (session_gate_closed _ _ c calls m h h' Hloop).
    destruct (all_required m) eqn:E; [|reflexivity].
    destruct (proj1 (all_required_roles m) E i Hi) as (x & Hx & Hz).
    destruct Hbad as [Hn | (y & Hy & Hzy)]; congruence.
Qed.

(** When the service answers the first calculation request with an
    error marker (as [post_to_mcp] does after a transport failure or a
    failed response), the chain raises [KeyError] on the missing
    [price_return] key right after that one call; no later call is
    placed and no comparison is reported. *)
Theorem calculation_chain_stops_at_error_marker (m : metrics)
    (h : history) (msg : string) :
  let request :=
    JObj [("initial_price", number (aapl_init m));
          ("final_price", number (aapl_final m))] in
  calculation_service h "price-return" request
  = JObj [("error", JStr msg)] ->
  calculation_chain search_provider calculation_service m h
  = (Raise (KeyError "price_return"),
     (h ++ [Posted "price-return" request])%list).
Proof.
  intros request Herr.
  unfold calculation_chain, total_return_of, bind.
  unfold tool_handler. simpl. unfold post_to_mcp. fold request.
  rewrite Herr. reflexivity.
Qed.

End GateFacts.

Lemma session_gate_nonzero_witness :
  exists m h',
    handle_calls Collaborators.echo_search Collaborators.local_service
      [search_call zero_dividend_queries] no_metrics [] = (Ok m, h') /\
    (exists i, (i < 6)%nat /\
       (role i m = None \/
        exists x, role i m = Some x /\ Float.is_zero x = true)) /\
    session Collaborators.echo_search Collaborators.local_service
      [search_call zero_dividend_queries] []
    = (Ok MissingData, h').
Proof.
  eexists. eexists.
  assert (Hloop :
    handle_calls Collaborators.echo_search Collaborators.local_service
      [search_call zero_dividend_queries] no_metrics []
    = (Ok (assign_from 0
             [Some (Float.of_Z 100); Some (Float.of_Z 120);
              Some (Float.of_Z 200); Some (Float.of_Z 210);
              Some Float.zero; Some (Float.of_Z 3)] no_metrics),
       map Searched (map JStr zero_dividend_queries)))
    by (vm_compute; reflexivity).
  split; [exact Hloop|].
  assert (Hbad : exists i, (i < 6)%nat /\
            (role i (assign_from 0
               [Some (Float.of_Z 100); Some (Float.of_Z 120);
                Some (Float.of_Z 200); Some (Float.of_Z 210);
                Some Float.zero; Some (Float.of_Z 3)] no_metrics) = None \/
             exists x,
               role i (assign_from 0
                 [Some (Float.of_Z 100); Some (Float.of_Z 120);
                  Some (Float.of_Z 200); Some (Float.of_Z 210);
                  Some Float.zero; Some (Float.of_Z 3)] no_metrics)
               = Some x /\ Float.is_zero x = true)).
  { exists 4%nat. split; [lia|]. right. exists Float.zero. now split. }
  split; [exact Hbad|].
  exact (proj2 (session_gate_nonzero Collaborators.echo_search
                  Collaborators.local_service _ _ _ _ _ Hloop) Hbad).
Defined.

Lemma calculation_chain_stops_at_error_marker_witness :
  let failing : history -> string -> json -> json :=
    fun _ _ _ => JObj [("error", JStr "Connection refused")] in
  let m := assign_from 0 scenario_vals no_metrics in
  let request :=
    JObj [("initial_price", number (aapl_init m));
          ("final_price", number (aapl_final m))] in
  failing [] "price-return" request
  = JObj [("error", JStr "Connection refused")] /\
  calculation_chain Collaborators.echo_search failing m []
  = (Raise (KeyError "price_return"),
     ([] ++ [Posted "price-return" request])%list).
Proof.
  intros failing m request. split; [reflexivity|].
  exact (calculation_chain_stops_at_error_marker
           Collaborators.echo_search failing m [] "Connection refused"
           eq_refl).
Defined.

Section MapperFacts.

(** The loop over the items of a search result raises exactly when the
    extractor raises on one of them — also on an item at position 6 or
    later, whose value would not be assigned to any slot. *)
Theorem map_items_raises_iff (items : list json) :
  forall (i : nat) (m : metrics),
    raises (map_items i items m)
    = existsb (fun item => raises (extract_price_or_dividend item)) items.
Proof.
  induction items as [|item rest IH]; intros i m; simpl; [reflexivity|].
  destruct (extract_price_or_dividend item) as [v|e]; simpl.
  - apply IH.
  - reflexivity.
Qed.

End MapperFacts.

(** A seventh item that is not a dictionary makes the loop raise, though
    position 6 feeds no slot. *)
Example map_items_seventh_item_raises :
  map_items 0 (scenario_items ++ [JArr []]) no_metrics
  = Raise AttributeError.
Proof. reflexivity. Qed.

(** * Further properties of the arithmetic *)

Section MarginFacts.

Lemma abs_binary_round (m : positive) (e : Z) :
  SFabs (binary_round Float.prec Float.emax true m e)
  = SFabs (binary_round Float.prec Float.emax false m e).
Proof.
  unfold binary_round.
  destruct (shl_align m e
              (fexp Float.prec Float.emax (Zpos (digits2_pos m) + e)))
    as [mz ez].
  unfold binary_round_aux.
  destruct (shr_fexp Float.prec Float.emax (Zpos mz) ez loc_Exact)
    as [mrs1 e1].
  destruct (shr_fexp Float.prec Float.emax
              (round_nearest_even (shr_m mrs1) (loc_of_shr_record mrs1))
              e1 loc_Exact) as [mrs2 e2].
  destruct (shr_m mrs2); try reflexivity.
  now destruct (e2 <=? Float.emax - Float.prec).
Qed.

Lemma abs_normalize_opp (z e : Z) :
  SFabs (binary_normalize Float.prec Float.emax (- z) e false)
  = SFabs (binary_normalize Float.prec Float.emax z e false).
Proof.
  destruct z as [|p|p]; cbn [Z.opp binary_normalize].
  - reflexivity.
  - apply abs_binary_round.
  - symmetry. apply abs_binary_round.
Qed.

Lemma abs_sub_swap (x y : float) :
  Float.abs (Float.sub x y) = Float.abs (Float.sub y x).
Proof.
  destruct x as [sx|sx| |sx mx ex], y as [sy|sy| |sy my ey];
    try reflexivity;
    try (destruct sx, sy; reflexivity).
  unfold Float.abs, Float.sub, SFsub.
  rewrite (Z.min_comm ey ex).
  set (a := cond_Zopp sx (Zpos (fst (shl_align mx ex (Z.min ex ey))))).
  set (b := cond_Zopp sy (Zpos (fst (shl_align my ey (Z.min ex ey))))).
  replace (b - a) with (- (a - b)) by lia.
  symmetry. apply abs_normalize_opp.
Qed.

(** The margin [abs(diff)] that [compare] prints does not depend on the
    order of the two operands, for all floats (NaN and the infinities
    included). *)
Theorem compare_margin_symmetric (a b : string) (x y : float) :
  Float.format_2f
    (Float.abs
       (Server.compare_diff
          {| Server.CompareInput.stock_a_name := a;
             Server.CompareInput.stock_a_return := x;
             Server.CompareInput.stock_b_name := b;
             Server.CompareInput.stock_b_return := y |}))
  = Float.format_2f
      (Float.abs
         (Server.compare_diff
            {| Server.CompareInput.stock_a_name := b;
               Server.CompareInput.stock_a_return := y;
               Server.CompareInput.stock_b_name := a;
               Server.CompareInput.stock_b_return := x |})).
Proof.
  unfold Server.compare_diff. simpl. now rewrite abs_sub_swap.
Qed.

Lemma is_nan_eq (x : float) : Float.is_nan x = true -> x = S754_nan.
Proof. destruct x; simpl; intros H; try discriminate H; reflexivity. Qed.

Lemma sub_nan (x y : float) :
  Float.is_nan x = true \/ Float.is_nan y = true ->
  Float.sub x y = S754_nan.
Proof.
  intros [H|H]; apply is_nan_eq in H; subst.
  - reflexivity.
  - now destruct x.
Qed.

(** When one of the two returns is NaN, [compare] names the second
    operand as the winner and prints [nan] as the margin. *)
Theorem compare_with_nan (a b : string) (x y : float) :
  Float.is_nan x = true \/ Float.is_nan y = true ->
  Server.compare
    {| Server.CompareInput.stock_a_name := a;
       Server.CompareInput.stock_a_return := x;
       Server.CompareInput.stock_b_name := b;
       Server.CompareInput.stock_b_return := y |}
  = Ok (JObj [("summary",
               JStr (b ++ " outperformed by nan%. Total returns were: "
                     ++ a ++ " = " ++ Float.format_2f x ++ "%, "
                     ++ b ++ " = " ++ Float.format_2f y ++ "%."))]).
Proof.
  intros H. unfold Server.compare, Server.compare_summary,
    Server.compare_winner, Server.compare_diff.
  cbn [Server.CompareInput.stock_a_name Server.CompareInput.stock_a_return
       Server.CompareInput.stock_b_name Server.CompareInput.stock_b_return].
  rewrite (sub_nan x y H). reflexivity.
Qed.

End MarginFacts.

Lemma compare_with_nan_witness :
  (Float.is_nan S754_nan = true \/ Float.is_nan (Float.of_Z 5) = true) /\
  Server.compare
    {| Server.CompareInput.stock_a_name := "AAPL";
       Server.CompareInput.stock_a_return := S754_nan;
       Server.CompareInput.stock_b_name := "MSFT";
       Server.CompareInput.stock_b_return := Float.of_Z 5 |}
  = Ok (JObj [("summary",
               JStr "MSFT outperformed by nan%. Total returns were: AAPL = nan%, MSFT = 5.00%.")]).
Proof.
  split; [left; reflexivity|].
  exact (compare_with_nan "AAPL" "MSFT" S754_nan (Float.of_Z 5)
           (or_introl eq_refl)).
Defined.

Section SignFacts.

Lemma shr_fexp_nonneg (m e : Z) (l : location) :
  0 <= m -> 0 <= shr_m (fst (shr_fexp Float.prec Float.emax m e l)).
Proof.
  intros Hm. unfold shr_fexp, shr.
  destruct (fexp Float.prec Float.emax (Zdigits2 m + e) - e) as [|p|p];
    cbn [fst]; try (now rewrite shr_m_of_loc).
  rewrite shr_m_iter by now rewrite shr_m_of_loc.
  rewrite shr_m_of_loc. apply Z.div_pos; [exact Hm|].
  apply Z.pow_pos_nonneg; lia.
Qed.

Lemma binary_round_aux_has_sign (s : bool) (mx ex : Z) (lx : location) :
  0 <= mx ->
  has_sign s (binary_round_aux Float.prec Float.emax s mx ex lx).
Proof.
  intros H. unfold binary_round_aux.
  pose proof (shr_fexp_nonneg mx ex lx H) as H1.
  destruct (shr_fexp Float.prec Float.emax mx ex lx) as [mrs1 e1].
  cbn [fst] in H1.
  pose proof (round_nearest_even_ge (shr_m mrs1) (loc_of_shr_record mrs1))
    as Hr.
  pose proof (shr_fexp_nonneg
                (round_nearest_even (shr_m mrs1) (loc_of_shr_record mrs1))
                e1 loc_Exact ltac:(lia)) as H2.
  destruct (shr_fexp Float.prec Float.emax
              (round_nearest_even (shr_m mrs1) (loc_of_shr_record mrs1))
              e1 loc_Exact) as [mrs2 e2].
  cbn [fst] in H2.
  destruct (shr_m mrs2) as [|m|m]; [reflexivity| |lia].
  destruct (e2 <=? Float.emax - Float.prec); reflexivity.
Qed.

Lemma div_has_sign (p q : positive) :
  has_sign false
    (Float.div (S754_finite false p 0) (S754_finite false q 0)).
Proof.
  unfold Float.div, SFdiv, SFdiv_core_binary.
  set (m' := match _ - _ - _ with
             | 0 => Zpos p
             | Zpos _ => Z.shiftl (Zpos p) _
             | Zneg _ => 0
             end).
  assert (Hm : 0 <= m').
  { subst m'. match goal with |- 0 <= match ?s with _ => _ end =>
                destruct s end; try lia.
    apply Z.shiftl_nonneg. lia. }
  destruct (Z.div_eucl m' (Zpos q)) as [qt r] eqn:E.
  assert (Hq : qt = m' / Zpos q) by (unfold Z.div; now rewrite E).
  apply binary_round_aux_has_sign. rewrite Hq. apply Z.div_pos; lia.
Qed.

Lemma of_decimal_has_sign (n : Z) (k : nat) :
  has_sign false (Float.of_decimal n k).
Proof.
  destruct n as [|p|p]; simpl; try reflexivity. apply div_has_sign.
Qed.

Lemma float_of_str_has_sign (s : string) (v : float) :
  float_of_str s = Ok v -> has_sign false v.
Proof.
  unfold float_of_str.
  destruct (Re.span_digits s) as [[|c ds] r]; [discriminate|].
  destruct r as [|c' fs].
  - intros E. inversion E. apply of_decimal_has_sign.
  - destruct (Ascii.eqb_spec c' ".") as [->|Hc].
    + destruct (Re.span_digits fs) as [[|d fd] [|x rest]];
        try discriminate.
      intros E. inversion E. apply of_decimal_has_sign.
    + destruct c' as [[] [] [] [] [] [] [] []]; try discriminate.
      now elim Hc.
Qed.

(** An extracted observation is never negative and never NaN: it is
    [+0.0], a positive finite number or [+inf]. *)
Theorem extracted_value_not_negative (payload : json) (v : float) :
  extract_price_or_dividend payload = Ok (Some v) -> has_sign false v.
Proof.
  unfold extract_price_or_dividend.
  destruct (full_text payload) as [text|e]; simpl; [|discriminate].
  destruct (Re.findall text) as [|m0 rest]; [discriminate|].
  destruct (float_of_str m0) as [x|e] eqn:E; simpl; [|discriminate].
  intros H. inversion H; subst. now apply (float_of_str_has_sign m0).
Qed.

End SignFacts.

Lemma extracted_value_not_negative_witness :
  extract_price_or_dividend
    (Collaborators.snippet_payload ["fell by -$3.5 to $96.5"])
  = Ok (Some (Float.of_decimal 35 1)) /\
  has_sign false (Float.of_decimal 35 1).
Proof.
  split; [reflexivity|].
  exact (extracted_value_not_negative
           (Collaborators.snippet_payload ["fell by -$3.5 to $96.5"])
           (Float.of_decimal 35 1) eq_refl).
Defined.

(** * The search endpoint of the service *)

Section SearchEndpoint.

Import ServerSearch.

Lemma lower_app (a b : string) : lower (a ++ b) = lower a ++ lower b.
Proof. induction a as [|c a IH]; simpl; [reflexivity | now rewrite IH]. Qed.

Lemma lower_split (a b : string) :
  forall q, lower q = a ++ b ->
    exists qa qb, q = qa ++ qb /\ lower qa = a /\ lower qb = b.
Proof.
  induction a as [|c a IH]; intros q H.
  - exists "", q. repeat split. exact H.
  - destruct q as [|x q]; [discriminate H|]. simpl in H.
    injection H as Hc Hq. destruct (IH q Hq) as (qa & qb & -> & Ha & Hb).
    exists (String x qa), qb. simpl. now rewrite Hc, Ha.
Qed.

Lemma contains_eq (k s : string) :
  Py.contains k s
  = if String.prefix k s then true
    else match s with
         | EmptyString => false
         | String _ s' => Py.contains k s'
         end.
Proof. now destruct s. Qed.

Lemma prefix_app (k post : string) : String.prefix k (k ++ post) = true.
Proof.
  induction k as [|c k IH]; simpl.
  - now destruct post.
  - destruct (ascii_dec c c) as [_|Hne]; [exact IH | now elim Hne].
Qed.

Lemma prefix_split (k : string) :
  forall s, String.prefix k s = true -> exists post, s = k ++ post.
Proof.
  induction k as [|c k IH]; intros s H.
  - exists s. reflexivity.
  - destruct s as [|x s]; [discriminate H|]. simpl in H.
    destruct (ascii_dec c x) as [->|_]; [|discriminate H].
    destruct (IH s H) as (post & ->). now exists post.
Qed.

Lemma contains_app (k pre post : string) :
  Py.contains k (pre ++ k ++ post) = true.
Proof.
  induction pre as [|c pre IH].
  - simpl. rewrite contains_eq. now rewrite prefix_app.
  - rewrite contains_eq.
    destruct (String.prefix k (String c pre ++ k ++ post)); [reflexivity|].
    exact IH.
Qed.

Lemma contains_split (k : string) :
  forall s, Py.contains k s = true ->
    exists pre post, s = pre ++ k ++ post.
Proof.
  induction s as [|c s IH]; intros H; rewrite contains_eq in H.
  - destruct (String.prefix k "") eqn:E; [|discriminate H].
    destruct (prefix_split k _ E) as (post & Hs). now exists "", post.
  - destruct (String.prefix k (String c s)) eqn:E.
    + destruct (prefix_split k _ E) as (post & Hs). now exists "", post.
    + destruct (IH H) as (pre & post & ->). now exists (String c pre), post.
Qed.

Lemma N_of_ascii_bound (c : ascii) : (N_of_ascii c < 256)%N.
Proof. destruct c as [[] [] [] [] [] [] [] []]; reflexivity. Qed.

(** [lower] maps a letter to [p] exactly when the letter is [p] or its
    capital, for a [p] that is no capital itself. *)
Lemma lower_char_caseless (c p : ascii) :
  ((N_of_ascii p < 65)%N \/ (90 < N_of_ascii p)%N) ->
  lower_char c = p <-> (c = p \/ capital_of c p).
Proof.
  intros Hp. unfold lower_char, capital_of.
  destruct ((65 <=? N_of_ascii c) && (N_of_ascii c <=? 90))%N eqn:Eu.
  - apply andb_true_iff in Eu as [H1 H2].
    apply N.leb_le in H1. apply N.leb_le in H2. split.
    + intros <-. right. rewrite N_ascii_embedding by lia. lia.
    + intros [->|(_ & _ & H)]; [lia|].
      rewrite H. apply ascii_N_embedding.
  - split.
    + intros H. now left.
    + intros [H|(H1 & H2 & _)]; [exact H|].
      apply N.leb_le in H1. apply N.leb_le in H2.
      rewrite H1, H2 in Eu. discriminate Eu.
Qed.

Lemma lower_caseless (phrase : string) :
  no_capital phrase ->
  forall w, lower w = phrase <-> caseless w phrase.
Proof.
  induction phrase as [|p phrase IH]; intros Hp w.
  - destruct w; simpl; split; intros H; try tauto; discriminate H.
  - destruct Hp as [Hp Hrest]. destruct w as [|c w]; simpl.
    + split; [discriminate | tauto].
    + rewrite <- (IH Hrest w), <- (lower_char_caseless c p Hp).
      split.
      * intros H. now inversion H.
      * intros [-> ->]. reflexivity.
Qed.

Lemma no_capital_phrase : no_capital "yahoo finance".
Proof. simpl. repeat split; try (right; reflexivity); left; reflexivity. Qed.

(** The endpoint goes on to the provider exactly when the query holds
    the words [yahoo finance] with each letter in either case.  Then it
    raises [KeyError] when the environment has no key, passes on what
    [requests.get] raised, raises with the provider's status and text
    when the status is not 200, raises what [response.json()] raised
    when the text is no JSON, and returns the decoded body otherwise.
    Any other query is refused with status 403 whatever the environment
    and the provider.  So [AAPL price YAHOO Finance] passes the test and
    reaches the lookup of the key, and [AAPL price] is refused. *)
Theorem search_requires_source (environ : option string)
    (provider : string -> string -> option response) (q : string) :
  ((exists pre w post,
      q = pre ++ w ++ post /\ caseless w "yahoo finance") ->
   search environ provider q
   = match environ with
     | None => inl (EnvironKeyError "SERPAPI_API_KEY")
     | Some api_key =>
         match provider q api_key with
         | None => inl RequestException
         | Some r =>
             if status_code r =? 200 then
               match decoded r with
               | Some document => inr document
               | None => inl JSONDecodeError
               end
             else inl (HTTPException (status_code r) (text r))
         end
     end) /\
  (~ (exists pre w post,
        q = pre ++ w ++ post /\ caseless w "yahoo finance") ->
   search environ provider q
   = inl (HTTPException 403
            "Query must include 'Yahoo Finance' as source.")) /\
  search None provider "AAPL price YAHOO Finance"
  = inl (EnvironKeyError "SERPAPI_API_KEY") /\
  search environ provider "AAPL price"
  = inl (HTTPException 403
           "Query must include 'Yahoo Finance' as source.").
Proof.
  split; [|split; [|split; reflexivity]].
  - intros (pre & w & post & -> & Hw).
    apply (lower_caseless _ no_capital_phrase) in Hw. unfold search.
    rewrite !lower_app, Hw, contains_app. cbn [negb].
    destruct environ as [api_key|]; [|reflexivity].
    destruct (provider (pre ++ w ++ post) api_key) as [r|]; [|reflexivity].
    now destruct (status_code r =? 200).
  - intros Hno. unfold search.
    destruct (Py.contains "yahoo finance" (lower q)) eqn:E;
      [|reflexivity].
    exfalso. apply Hno.
    destruct (contains_split _ _ E) as (pre' & post' & Hq).
    destruct (lower_split _ _ _ Hq) as (pre & rest & -> & _ & Hrest).
    destruct (lower_split _ _ _ Hrest) as (w & post & -> & Hw & _).
    exists pre, w, post. split; [reflexivity|].
    now apply (lower_caseless _ no_capital_phrase).
Qed.

End SearchEndpoint.

(** A query that names the source in capitals is forwarded; one that
    does not name it is refused; a missing key, a provider that fails,
    or one that answers 200 with a text that is no JSON, makes the
    endpoint raise. *)
Example search_accepts_any_casing :
  let found := fun _ _ : string =>
    Some {| ServerSearch.status_code := 200; ServerSearch.text := "{}";
            ServerSearch.decoded := Some (JObj []) |} in
  let garbled := fun _ _ : string =>
    Some {| ServerSearch.status_code := 200; ServerSearch.text := "<html>";
            ServerSearch.decoded := None |} in
  let busy := fun _ _ : string =>
    Some {| ServerSearch.status_code := 429; ServerSearch.text := "slow down";
            ServerSearch.decoded := None |} in
  ServerSearch.search (Some "k") found "AAPL price YAHOO Finance"
  = inr (JObj []) /\
  ServerSearch.search (Some "k") found "AAPL price"
  = inl (ServerSearch.HTTPException 403
           "Query must include 'Yahoo Finance' as source.") /\
  ServerSearch.search None found "AAPL yahoo finance"
  = inl (ServerSearch.EnvironKeyError "SERPAPI_API_KEY") /\
  ServerSearch.search (Some "k") (fun _ _ => None) "AAPL yahoo finance"
  = inl ServerSearch.RequestException /\
  ServerSearch.search (Some "k") busy "AAPL yahoo finance"
  = inl (ServerSearch.HTTPException 429 "slow down") /\
  ServerSearch.search (Some "k") garbled "AAPL yahoo finance"
  = inl ServerSearch.JSONDecodeError.
Proof. repeat split. Qed.

(** * The first value wins *)

Section FirstValue.

Arguments Re.is_digit : simpl never.

Lemma space_not_digit : Re.is_digit " " = false.
Proof. reflexivity. Qed.

Lemma span_digits_extend (s t : string) :
  Re.span_digits (s ++ String " " t)
  = (fst (Re.span_digits s), snd (Re.span_digits s) ++ String " " t).
Proof.
  induction s as [|c s IH].
  - reflexivity.
  - simpl. destruct (Re.is_digit c); [|reflexivity].
    rewrite IH. now destruct (Re.span_digits s).
Qed.

Lemma fraction_not_point (c : ascii) (s : string) :
  c <> "."%char -> Re.fraction (String c s) = "".
Proof.
  intros Hc. unfold Re.fraction.
  destruct c as [[] [] [] [] [] [] [] []]; try reflexivity. now elim Hc.
Qed.

Lemma fraction_extend (r t : string) :
  Re.fraction (r ++ String " " t) = Re.fraction r.
Proof.
  destruct r as [|c0 r].
  - reflexivity.
  - destruct (Ascii.eqb_spec c0 ".") as [->|Hc].
    + destruct r as [|d1 r].
      * reflexivity.
      * simpl. destruct (Re.is_digit d1); [|reflexivity].
        destruct r as [|d2 r]; reflexivity.
    + change (String c0 r ++ String " " t)
        with (String c0 (r ++ String " " t)).
      now rewrite !fraction_not_point.
Qed.

Lemma match_at_extend (s t : string) :
  s <> "" -> Re.match_at (s ++ String " " t) = Re.match_at s.
Proof.
  intros Hs. destruct s as [|c s]; [now elim Hs|].
  destruct (Ascii.eqb_spec c "$") as [->|Hc].
  - simpl. rewrite span_digits_extend.
    destruct (Re.span_digits s) as [[|d ds] r]; simpl; [reflexivity|].
    now rewrite fraction_extend.
  - change (String c s ++ String " " t)
      with (String c (s ++ String " " t)).
    now rewrite !match_at_other.
Qed.

(** What [findall] finds first in a text is still found first when a
    space and more text follow. *)
Lemma findall_head_extend (s t : string) (g : string) (rest : list string) :
  Re.findall s = g :: rest ->
  exists rest', Re.findall (s ++ String " " t) = g :: rest'.
Proof.
  unfold Re.findall. induction s as [|c s IH]; [discriminate|].
  cbn [append Re.findall_from].
  change (String c (s ++ String " " t)) with (String c s ++ String " " t).
  rewrite match_at_extend by discriminate.
  destruct (Re.match_at (String c s)) as [g0|].
  - intros H. inversion H; subst. eauto.
  - exact IH.
Qed.

Lemma concat_app (sep : string) (l1 l2 : list string) :
  l1 <> [] -> l2 <> [] ->
  String.concat sep (l1 ++ l2)
  = String.concat sep l1 ++ sep ++ String.concat sep l2.
Proof.
  intros H1 H2. induction l1 as [|x l1 IH]; [now elim H1|].
  destruct l1 as [|y l1].
  - destruct l2 as [|z l2]; [now elim H2|]. reflexivity.
  - change (String.concat sep ((x :: y :: l1) ++ l2))
      with (x ++ sep ++ String.concat sep ((y :: l1) ++ l2)).
    rewrite IH by discriminate.
    change (String.concat sep (x :: y :: l1))
      with (x ++ sep ++ String.concat sep (y :: l1)).
    now rewrite !append_assoc.
Qed.

Lemma snippets_app (es1 es2 : list json) :
  snippets (es1 ++ es2) = (snippets es1 ++ snippets es2)%list.
Proof. unfold snippets. apply flat_map_app. Qed.

Lemma extract_of_results (entries : list json) :
  forallb wf_entry entries = true ->
  extract_price_or_dividend (JObj [("organic_results", JArr entries)])
  = match Re.findall (String.concat " " (snippets entries)) with
    | [] => Ok None
    | m0 :: _ => v <- float_of_str m0 ;; Ok (Some v)
    end.
Proof.
  intros Hwf. unfold extract_price_or_dividend.
  rewrite (full_text_wf (JObj [("organic_results", JArr entries)]))
    by exact Hwf.
  reflexivity.
Qed.

(** Once the results so far give a value, further results appended
    after them cannot change it: the first match wins, and the space
    that joins the snippets keeps a later snippet from lengthening the
    number an earlier one ends with. *)
Theorem extract_first_value_wins (entries more : list json) (v : float) :
  forallb wf_entry entries = true ->
  forallb wf_entry more = true ->
  extract_price_or_dividend (JObj [("organic_results", JArr entries)])
  = Ok (Some v) ->
  extract_price_or_dividend
    (JObj [("organic_results", JArr (entries ++ more))])
  = Ok (Some v).
Proof.
  intros Hwf Hmore H.
  rewrite extract_of_results in H by exact Hwf.
  rewrite extract_of_results by (rewrite forallb_app; now rewrite Hwf, Hmore).
  rewrite snippets_app.
  destruct (snippets more) as [|t ts] eqn:Em.
  - now rewrite app_nil_r.
  - destruct (snippets entries) as [|s ss] eqn:Es; [discriminate H|].
    rewrite concat_app by discriminate.
    destruct (Re.findall (String.concat " " (s :: ss))) as [|g rest] eqn:Ef;
      [discriminate H|].
    change (String.concat " " (s :: ss) ++ " " ++ String.concat " " (t :: ts))
      with (String.concat " " (s :: ss)
            ++ String " " (String.concat " " (t :: ts))).
    destruct (findall_head_extend _ (String.concat " " (t :: ts)) _ _ Ef)
      as (rest' & ->).
    exact H.
Qed.

End FirstValue.

Lemma extract_first_value_wins_witness :
  let entries := [JObj [("snippet", JStr "AAPL closed at $12")]] in
  let more := [JObj [("title", JStr "no snippet")];
               JObj [("snippet", JStr "34.5 and later $99")]] in
  forallb wf_entry entries = true /\
  forallb wf_entry more = true /\
  extract_price_or_dividend (JObj [("organic_results", JArr entries)])
  = Ok (Some (Float.of_Z 12)) /\
  extract_price_or_dividend
    (JObj [("organic_results", JArr (entries ++ more))])
  = Ok (Some (Float.of_Z 12)).
Proof.
  intros entries more. do 3 (split; [reflexivity|]).
  exact (extract_first_value_wins entries more (Float.of_Z 12)
           eq_refl eq_refl eq_refl).
Defined.

(** ** The endpoints and their one exception *)

(** The only exception of the four calculation endpoints is
    [ZeroDivisionError], raised by price-return and dividend-yield
    exactly when the initial price is zero of either sign; a NaN or an
    infinite input raises nothing, and total-return and compare never
    raise. *)
Theorem endpoints_raise_only_on_zero_price
    (p : Server.PriceReturnInput.t) (d : Server.DividendInput.t)
    (t : Server.TotalReturnInput.t) (c : Server.CompareInput.t) :
  (Server.calc_price_return p = Raise ZeroDivisionError <->
   Float.is_zero (Server.PriceReturnInput.initial_price p) = true) /\
  (raises (Server.calc_price_return p)
   = Float.is_zero (Server.PriceReturnInput.initial_price p)) /\
  (Server.calc_dividend_yield d = Raise ZeroDivisionError <->
   Float.is_zero (Server.DividendInput.initial_price d) = true) /\
  (raises (Server.calc_dividend_yield d)
   = Float.is_zero (Server.DividendInput.initial_price d)) /\
  raises (Server.calc_total_return t) = false /\
  raises (Server.compare c) = false.
Proof.
  unfold Server.calc_price_return, Server.calc_dividend_yield,
    Server.truediv.
  destruct (Float.is_zero (Server.PriceReturnInput.initial_price p));
    destruct (Float.is_zero (Server.DividendInput.initial_price d));
    simpl; repeat split; intros; try reflexivity; try discriminate.
Qed.

(** * Rounding to binary64 *)

(** ** The shift record locates the exact quotient *)

Section RoundingFacts.

Local Abbreviation emin := (-1074).

Lemma located_shr_1 (mrs : shr_record) (A B : Z) :
  located mrs A B -> located (shr_1 mrs) A (2 * B).
Proof.
  destruct mrs as [m r s]. unfold located. cbn [shr_m shr_r shr_s].
  intros (HB & Hm & Hrem & Hr & Hs). subst r s.
  destruct m as [|[p|p|]|p]; try lia; cbn [shr_1 shr_m shr_r shr_s].
  - repeat split; lia.
  - replace (Zpos p~1 * B) with (2 * (Zpos p * B) + B) in * by lia.
    repeat split; lia.
  - replace (Zpos p~0 * B) with (2 * (Zpos p * B)) in * by lia.
    repeat split; lia.
  - repeat split; lia.
Qed.

Lemma located_iter (p : positive) :
  forall (mrs : shr_record) (A B : Z),
    located mrs A B -> located (iter_pos shr_1 p mrs) A (B * 2 ^ Zpos p).
Proof.
  induction p as [p IH|p IH|]; intros mrs A B H; cbn [iter_pos].
  - rewrite pow2_xI.
    replace (B * (2 * (2 ^ Zpos p * 2 ^ Zpos p)))
      with (2 * B * 2 ^ Zpos p * 2 ^ Zpos p) by lia.
    apply IH, IH. now apply located_shr_1.
  - rewrite pow2_xO.
    replace (B * (2 ^ Zpos p * 2 ^ Zpos p))
      with (B * 2 ^ Zpos p * 2 ^ Zpos p) by lia.
    now apply IH, IH.
  - replace (B * 2 ^ 1) with (2 * B) by lia. now apply located_shr_1.
Qed.

Lemma located_round (mrs : shr_record) (A B : Z) :
  located mrs A B ->
  let mr := round_nearest_even (shr_m mrs) (loc_of_shr_record mrs) in
  shr_m mrs <= mr <= shr_m mrs + 1 /\ 2 * Z.abs (mr * B - A) <= B.
Proof.
  destruct mrs as [m r s]. unfold located. cbn [shr_m shr_r shr_s].
  intros (HB & Hm & Hrem & Hr & Hs).
  destruct r, s; cbn [loc_of_shr_record round_nearest_even];
    try destruct (Z.even m); split; lia.
Qed.

Lemma located_m (mrs : shr_record) (A B : Z) :
  located mrs A B -> shr_m mrs = A / B.
Proof.
  intros (HB & Hm & Hrem & _).
  apply Z.div_unique with (A - shr_m mrs * B); lia.
Qed.

Lemma Zdigits2_unique (m d : Z) :
  0 < d -> 2 ^ (d - 1) <= m < 2 ^ d -> Zdigits2 m = d.
Proof.
  intros Hd [Hlo Hhi].
  assert (0 < m) by (pose proof (Z.pow_pos_nonneg 2 (d - 1)); lia).
  destruct m as [|p|p]; try lia. cbn [Zdigits2].
  pose proof (digits2_bounds p) as [Hl Hh].
  destruct (Z.lt_trichotomy (Zpos (digits2_pos p)) d) as [C|[C|C]];
    [|exact C|].
  - exfalso. assert (2 ^ Zpos (digits2_pos p) <= 2 ^ (d - 1))
      by (apply Z.pow_le_mono_r; lia). lia.
  - exfalso. assert (2 ^ d <= 2 ^ (Zpos (digits2_pos p) - 1))
      by (apply Z.pow_le_mono_r; lia). lia.
Qed.

Lemma Zdigits2_small (m : Z) :
  0 <= m < 2 ^ 52 -> Zdigits2 m <= 52.
Proof.
  intros [H0 H1]. destruct m as [|p|p]; try lia; cbn [Zdigits2]; [lia|].
  pose proof (digits2_bounds p) as [Hl _].
  destruct (Z.le_gt_cases (Zpos (digits2_pos p)) 52) as [C|C]; [exact C|].
  exfalso. assert (2 ^ 52 <= 2 ^ (Zpos (digits2_pos p) - 1))
    by (apply Z.pow_le_mono_r; lia). lia.
Qed.

Lemma shr_fexp_kept (mr e1 : Z) :
  emin <= e1 ->
  2 ^ 52 <= mr < 2 ^ 53 \/ e1 = emin /\ 0 <= mr < 2 ^ 52 ->
  shr_fexp Float.prec Float.emax mr e1 loc_Exact
  = (Build_shr_record mr false false, e1).
Proof.
  intros He H. unfold shr_fexp, shr. rewrite fexp_eq.
  cbn [shr_record_of_loc].
  assert (E : Z.max (Zdigits2 mr + e1 - 53) emin - e1 = 0).
  { destruct H as [H|[-> H]].
    - rewrite (Zdigits2_unique mr 53) by (simpl; lia). lia.
    - pose proof (Zdigits2_small mr H). lia. }
  now rewrite E.
Qed.

Lemma shr_fexp_carry (e1 : Z) :
  emin <= e1 ->
  shr_fexp Float.prec Float.emax (2 ^ 53) e1 loc_Exact
  = (Build_shr_record (2 ^ 52) false false, e1 + 1).
Proof.
  intros He. unfold shr_fexp, shr. rewrite fexp_eq.
  replace (Zdigits2 (2 ^ 53)) with 54 by reflexivity.
  replace (Z.max (54 + e1 - 53) emin - e1) with 1 by lia.
  reflexivity.
Qed.

Lemma binary_round_aux_located (s : bool) (mx ex : Z) (lx : location)
    (A B : Z) :
  located (shr_record_of_loc mx lx) A B ->
  ex <= fexp Float.prec Float.emax (Zdigits2 mx + ex) ->
  exists m e,
    binary_round_aux Float.prec Float.emax s mx ex lx
    = match m with
      | Z0 => S754_zero s
      | Zpos p => if e <=? 971 then S754_finite s p e else S754_infinity s
      | Zneg _ => S754_nan
      end /\
    0 <= m /\ ex <= e /\ emin <= e /\
    (2 ^ 52 <= m < 2 ^ 53 \/ e = emin /\ m < 2 ^ 52) /\
    2 * Z.abs (m * (B * 2 ^ (e - ex)) - A) <= B * 2 ^ (e - ex).
Proof.
  intros Hloc Hn. rewrite fexp_eq in Hn.
  pose proof Hloc as (HB & Hmx & _). rewrite shr_m_of_loc in Hmx.
  pose proof (located_m _ _ _ Hloc) as Emx. rewrite shr_m_of_loc in Emx.
  set (e1 := Z.max (Zdigits2 mx + ex - 53) emin) in *.
  assert (Hp : 0 < 2 ^ (e1 - ex)) by (apply Z.pow_pos_nonneg; lia).
  assert (H1 : exists mrs1,
             shr_fexp Float.prec Float.emax mx ex lx = (mrs1, e1) /\
             located mrs1 A (B * 2 ^ (e1 - ex))).
  { unfold shr_fexp, shr. rewrite fexp_eq. fold e1.
    destruct (e1 - ex) as [|p|p] eqn:En; try lia.
    - exists (shr_record_of_loc mx lx). split; [f_equal; lia|].
      now replace (B * 2 ^ 0) with B by lia.
    - eexists. split; [f_equal; lia|]. now apply located_iter. }
  destruct H1 as (mrs1 & E1 & Hloc1).
  pose proof (located_m _ _ _ Hloc1) as Em1.
  rewrite <- Z.div_div, <- Emx in Em1 by lia.
  pose proof (located_round _ _ _ Hloc1) as [Hr Hb].
  set (mr := round_nearest_even (shr_m mrs1) (loc_of_shr_record mrs1)) in *.
  cbv zeta in Hr, Hb.
  assert (Hm1 : 0 <= shr_m mrs1) by (rewrite Em1; apply Z.div_pos; lia).
  unfold binary_round_aux. rewrite E1. fold mr.
  assert (Hcase : 2 ^ 52 <= shr_m mrs1 < 2 ^ 53 /\
                  e1 = Zdigits2 mx + ex - 53 \/
                  e1 = emin /\ shr_m mrs1 < 2 ^ 52).
  { destruct (Z.le_gt_cases emin (Zdigits2 mx + ex - 53)) as [C|C].
    - left. assert (Ee : e1 = Zdigits2 mx + ex - 53) by lia.
      split; [|exact Ee].
      assert (Hd : 0 < mx) by (destruct mx; simpl in *; lia).
      pose proof (Zdigits2_bound mx Hd) as Hlo.
      assert (Hhi : mx < 2 ^ Zdigits2 mx)
        by (destruct mx as [|p|p]; try lia; apply digits2_bounds).
      assert (Ed : Zdigits2 mx = 53 + (e1 - ex)) by lia.
      rewrite Ed in Hlo, Hhi.
      replace (53 + (e1 - ex) - 1) with (52 + (e1 - ex)) in Hlo by lia.
      rewrite Z.pow_add_r in Hlo, Hhi by lia.
      rewrite Em1. split.
      + apply Z.div_le_lower_bound; lia.
      + apply Z.div_lt_upper_bound; lia.
    - right. split; [lia|]. rewrite Em1.
      apply Z.div_lt_upper_bound; [lia|].
      destruct mx as [|p|p]; try lia.
      pose proof (digits2_bounds p) as [_ Hhi]. cbn [Zdigits2] in *.
      apply Z.lt_le_trans with (2 ^ Zpos (digits2_pos p)); [exact Hhi|].
      rewrite <- Z.pow_add_r by lia. apply Z.pow_le_mono_r; lia. }
  assert (He1 : emin <= e1) by lia.
  destruct (Z.eq_dec mr (2 ^ 53)) as [Ec|Ec].
  - rewrite Ec, (shr_fexp_carry e1 He1). cbn [shr_m].
    exists (2 ^ 52), (e1 + 1). split; [reflexivity|].
    split; [lia|]. split; [lia|]. split; [lia|]. split; [left; lia|].
    replace (e1 + 1 - ex) with (Z.succ (e1 - ex)) by lia.
    rewrite Z.pow_succ_r by lia. rewrite Ec in Hb.
    replace (2 ^ 52 * (B * (2 * 2 ^ (e1 - ex))))
      with (2 ^ 53 * (B * 2 ^ (e1 - ex))) by (change (2 ^ 53) with (2 * 2 ^ 52); lia).
    lia.
  - rewrite (shr_fexp_kept mr e1 He1).
    + cbn [shr_m]. exists mr, e1. split; [reflexivity|].
      split; [lia|]. split; [lia|]. split; [lia|]. split; [|exact Hb].
      destruct Hcase as [[H52 _]|[Ee Hs]]; [left; lia|].
      destruct (Z.eq_dec mr (2 ^ 52)); [left; lia | right; lia].
    + destruct Hcase as [[H52 _]|[Ee Hs]]; [left; lia|].
      destruct (Z.eq_dec mr (2 ^ 52)); [left; lia | right; lia].
Qed.

End RoundingFacts.

(** ** From the located quotient to the rounded number *)

Section Bridge.

Local Abbreviation emin := (-1074).

Lemma two_pos (e : Z) : (0 < 2 ^ e)%Q.
Proof. apply Qpower_0_lt. reflexivity. Qed.

Lemma two_split (ex e : Z) :
  ex <= e -> (2 ^ e == 2 ^ ex * inject_Z (2 ^ (e - ex)))%Q.
Proof.
  intros H. rewrite Zpower_Qpower by lia.
  rewrite <- Qpower_plus by discriminate.
  now replace (ex + (e - ex)) with e by lia.
Qed.

Lemma two_half (e : Z) : (2 * 2 ^ (e - 1) == 2 ^ e)%Q.
Proof.
  replace e with (1 + (e - 1)) at 2 by lia.
  rewrite Qpower_plus by discriminate. reflexivity.
Qed.

Lemma half_unit_bound (s : bool) (x b a P k mq h : Q) :
  (0 < b)%Q -> (0 < P)%Q ->
  (x * b == (if s then -1 else 1) * a * P)%Q ->
  (- (b * k) <= 2 * (mq * (b * k) - a))%Q ->
  (2 * (mq * (b * k) - a) <= b * k)%Q ->
  (2 * h == P * k)%Q ->
  (Qabs ((if s then - mq else mq) * (P * k) - x) <= h)%Q.
Proof.
  intros Hb HP Hx H1 H2 Hh.
  assert (N1 : (0 <= P * (b * k + 2 * (mq * (b * k) - a)))%Q)
    by (apply Qmult_le_0_compat; lra).
  assert (N2 : (0 <= P * (b * k - 2 * (mq * (b * k) - a)))%Q)
    by (apply Qmult_le_0_compat; lra).
  assert (Hhb : (2 * h * b == P * k * b)%Q) by (now rewrite Hh).
  apply Qabs_Qle_condition.
  split; apply (Qmult_le_r _ _ b Hb); destruct s; lra.
Qed.

Lemma overflow_bound (m E : Q) :
  (inject_Z (2 ^ 52) <= m)%Q -> (2 ^ 972 <= E)%Q ->
  (2 ^ 1024 - 2 ^ 971 <= m * E - E * (1 # 2))%Q.
Proof.
  intros Hm HE.
  assert (E1 : (2 ^ 1024 == inject_Z (2 ^ 52) * 2 ^ 972)%Q).
  { change 1024 with (52 + 972). rewrite Qpower_plus by discriminate.
    rewrite Zpower_Qpower by lia. reflexivity. }
  assert (E2 : (2 ^ 972 == 2 * 2 ^ 971)%Q) by (symmetry; apply (two_half 972)).
  pose proof (two_pos 971) as H0.
  rewrite E1. set (C := (2 ^ 972)%Q) in *. set (D := (2 ^ 971)%Q) in *.
  set (c := inject_Z (2 ^ 52)) in *.
  assert (Hc : (1 <= c)%Q) by (unfold c; change 1%Q with (inject_Z 1); rewrite <- Zle_Qle; lia).
  assert (N1 : (0 <= (m - c) * E)%Q) by (apply Qmult_le_0_compat; lra).
  assert (N2 : (0 <= (c - (1 # 2)) * (E - C))%Q)
    by (apply Qmult_le_0_compat; lra).
  clearbody C D c. lra.
Qed.

Lemma rounded_of_located (s : bool) (m e ex A B : Z) (x : Q) :
  0 < B -> 0 <= m -> ex <= e -> emin <= e ->
  (2 ^ 52 <= m < 2 ^ 53 \/ e = emin /\ m < 2 ^ 52) ->
  2 * Z.abs (m * (B * 2 ^ (e - ex)) - A) <= B * 2 ^ (e - ex) ->
  (x * inject_Z B == (if s then -1 else 1) * inject_Z A * 2 ^ ex)%Q ->
  rounded match m with
          | Z0 => S754_zero s
          | Zpos p =>
              if e <=? 971 then S754_finite s p e else S754_infinity s
          | Zneg _ => S754_nan
          end x.
Proof.
  intros HB Hm Hex He Hc Hb Hx.
  pose proof (two_pos ex) as HP. pose proof (two_split ex e Hex) as HE.
  assert (HK : 0 < 2 ^ (e - ex)) by (apply Z.pow_pos_nonneg; lia).
  set (K := 2 ^ (e - ex)) in *.
  assert (Hb1 : - (B * K) <= 2 * (m * (B * K) - A)) by lia.
  assert (Hb2 : 2 * (m * (B * K) - A) <= B * K) by lia.
  pose proof HB as HBq.
  rewrite Zle_Qle in Hb1, Hb2. rewrite Zlt_Qlt in HBq.
  unfold Z.sub in Hb1, Hb2.
  repeat (rewrite inject_Z_opp in Hb1 || rewrite inject_Z_mult in Hb1
          || rewrite inject_Z_plus in Hb1).
  repeat (rewrite inject_Z_opp in Hb2 || rewrite inject_Z_mult in Hb2
          || rewrite inject_Z_plus in Hb2).
  change (inject_Z 2) with 2%Q in *. change (inject_Z 0) with 0%Q in *.
  pose proof (half_unit_bound s x _ _ _ _ _ (2 ^ (e - 1))%Q
                HBq HP Hx Hb1 Hb2) as Hh.
  rewrite <- HE in Hh. specialize (Hh (two_half e)).
  destruct m as [|p|p]; [| |lia].
  - cbn [rounded]. destruct Hc as [Hc|[-> _]]; [lia|].
    change (emin - 1) with (-1075) in Hh.
    rewrite <- (Qabs_opp x).
    assert (E : (- x == (if s then - inject_Z 0 else inject_Z 0)
                        * 2 ^ emin - x)%Q) by (destruct s; ring).
    now rewrite E.
  - destruct (Z.leb_spec e 971) as [Hle|Hgt].
    + cbn [rounded]. split; [lia|]. split; [exact Hc|]. exact Hh.
    + cbn [rounded]. destruct Hc as [[Hc _]|[-> _]]; [|lia].
      apply Qabs_Qle_condition in Hh. destruct Hh as [Hh1 Hh2].
      assert (Hmq : (inject_Z (2 ^ 52) <= inject_Z (Zpos p))%Q)
        by (rewrite <- Zle_Qle; exact Hc).
      assert (HEq : (2 ^ 972 <= 2 ^ e)%Q)
        by (apply Qpower_le_compat_l; [lia | discriminate]).
      pose proof (overflow_bound _ _ Hmq HEq) as Ho.
      pose proof (two_half e) as Hhalf.
      set (E := (2 ^ e)%Q) in *. set (H := (2 ^ (e - 1))%Q) in *.
      set (mq := inject_Z (Zpos p)) in *.
      set (L := (2 ^ 1024 - 2 ^ 971)%Q) in *.
      clearbody E H mq L. destruct s; lra.
Qed.

End Bridge.

(** ** Each operation is the exact operation, rounded *)

Section Ops.

Local Abbreviation emin := (-1074).

Lemma binary_round_aux_rounded (s : bool) (mx ex : Z) (lx : location)
    (A B : Z) (x : Q) :
  located (shr_record_of_loc mx lx) A B ->
  ex <= fexp Float.prec Float.emax (Zdigits2 mx + ex) ->
  (x * inject_Z B == (if s then -1 else 1) * inject_Z A * 2 ^ ex)%Q ->
  rounded (binary_round_aux Float.prec Float.emax s mx ex lx) x.
Proof.
  intros Hloc Hn Hx.
  destruct (binary_round_aux_located s mx ex lx A B Hloc Hn)
    as (m & e & -> & Hm & Hex & He & Hc & Hb).
  destruct Hloc as (HB & _).
  now apply (rounded_of_located s m e ex A B).
Qed.

Lemma located_new_location (q m2 r : Z) :
  0 <= q -> 0 <= r < m2 ->
  located (shr_record_of_loc q (new_location m2 r)) (q * m2 + r) m2.
Proof.
  intros Hq Hr. unfold new_location, new_location_even, new_location_odd.
  destruct (Z.even m2) eqn:Ev.
  - destruct (Z.eqb_spec r 0) as [->|Hne].
    + cbn [shr_record_of_loc]. unfold located; cbn [shr_m shr_r shr_s].
      repeat split; lia.
    + destruct (Z.compare_spec (2 * r) m2);
        cbn [shr_record_of_loc]; unfold located; cbn [shr_m shr_r shr_s];
        repeat split; lia.
  - destruct (Z.eqb_spec r 0) as [->|Hne].
    + cbn [shr_record_of_loc]. unfold located; cbn [shr_m shr_r shr_s].
      repeat split; lia.
    + assert (Hodd : 2 * r <> m2).
      { intros E. rewrite <- E, Z.even_mul in Ev. discriminate Ev. }
      destruct (Z.compare_spec (2 * r + 1) m2);
        cbn [shr_record_of_loc]; unfold located; cbn [shr_m shr_r shr_s];
        repeat split; lia.
Qed.

Lemma Zdigits2_ge (m d : Z) : 0 <= d -> 2 ^ d <= m -> d + 1 <= Zdigits2 m.
Proof.
  intros Hd H.
  assert (0 < m) by (pose proof (Z.pow_pos_nonneg 2 d); lia).
  destruct m as [|p|p]; try lia. cbn [Zdigits2].
  pose proof (digits2_bounds p) as [_ Hhi].
  destruct (Z.le_gt_cases (d + 1) (Zpos (digits2_pos p))) as [C|C];
    [exact C|].
  exfalso. assert (2 ^ Zpos (digits2_pos p) <= 2 ^ d)
    by (apply Z.pow_le_mono_r; lia). lia.
Qed.

Lemma Zdigits2_nonneg (m : Z) : 0 <= Zdigits2 m.
Proof. destruct m; simpl; lia. Qed.

(** The quotient and the location [SFdiv_core_binary] hands to the
    rounding. *)
Lemma SFdiv_core_binary_located (m1 m2 : positive) (e1 e2 : Z) :
  exists q e' l t,
    SFdiv_core_binary Float.prec Float.emax (Zpos m1) e1 (Zpos m2) e2
    = (q, e', l) /\
    0 <= t /\ e' + t = e1 - e2 /\
    located (shr_record_of_loc q l) (Zpos m1 * 2 ^ t) (Zpos m2) /\
    e' <= fexp Float.prec Float.emax (Zdigits2 q + e').
Proof.
  unfold SFdiv_core_binary. rewrite !fexp_eq.
  set (d1 := Zdigits2 (Zpos m1)). set (d2 := Zdigits2 (Zpos m2)).
  set (e' := Z.min (Z.max (d1 + e1 - (d2 + e2) - 53) emin) (e1 - e2)).
  set (t := e1 - e2 - e').
  assert (Ht : 0 <= t) by lia.
  set (m' := match t with
             | Zpos _ => Z.shiftl (Zpos m1) t
             | Z0 => Zpos m1
             | Zneg _ => 0
             end).
  assert (Em : m' = Zpos m1 * 2 ^ t).
  { unfold m'. destruct t as [|p|p] eqn:Et; try lia.
    rewrite Z.shiftl_mul_pow2 by lia. reflexivity. }
  pose proof (Z_div_mod m' (Zpos m2) eq_refl) as Hdiv.
  destruct (Z.div_eucl m' (Zpos m2)) as [q r]. destruct Hdiv as [Eq Hr].
  assert (Hp : 0 < 2 ^ t) by (apply Z.pow_pos_nonneg; lia).
  assert (Hq : 0 <= q) by nia.
  exists q, e', (new_location (Zpos m2) r), t.
  split; [reflexivity|]. split; [exact Ht|]. split; [lia|]. split.
  - rewrite <- Em, Eq. replace (Zpos m2 * q + r) with (q * Zpos m2 + r) by lia.
    now apply located_new_location.
  - rewrite fexp_eq.
    pose proof (digits2_bounds m1) as [Hl1 Hh1].
    pose proof (digits2_bounds m2) as [Hl2 Hh2].
    fold (Zdigits2 (Zpos m1)) in Hl1, Hh1. fold d1 in Hl1, Hh1.
    fold (Zdigits2 (Zpos m2)) in Hl2, Hh2. fold d2 in Hl2, Hh2.
    assert (Hd1 : 1 <= d1) by (unfold d1; simpl; lia).
    assert (Hd2 : 1 <= d2) by (unfold d2; simpl; lia).
    pose proof (Zdigits2_nonneg q) as Hdq.
    destruct (Z.le_gt_cases e' emin) as [C|C]; [lia|].
    (* e' above emin: the quotient has at least 53 digits *)
    assert (He' : e' <= d1 + e1 - (d2 + e2) - 53) by lia.
    assert (Ht' : d2 + 53 - d1 <= t) by lia.
    assert (Hk : 0 <= d1 + t - d2 - 1) by lia.
    assert (Hge : 2 ^ (d1 + t - d2 - 1) <= q).
    { assert (Hlow : 2 ^ (d1 + t - d2 - 1) * 2 ^ d2 <= m').
      { rewrite <- Z.pow_add_r by lia. rewrite Em.
        replace (d1 + t - d2 - 1 + d2) with ((d1 - 1) + t) by lia.
        rewrite Z.pow_add_r by lia. nia. }
      assert (Hpk : 0 < 2 ^ (d1 + t - d2 - 1))
        by (apply Z.pow_pos_nonneg; lia).
      nia. }
    pose proof (Zdigits2_ge q _ Hk Hge). lia.
Qed.

Lemma Qabs_zero_le (e : Z) : (Qabs 0 <= 2 ^ e)%Q.
Proof. apply Qlt_le_weak. apply two_pos. Qed.

Lemma div_rounded (x y : float) :
  is_finite x = true -> is_finite y = true -> Float.is_zero y = false ->
  rounded (Float.div x y) (value x / value y).
Proof.
  intros Hx Hy Hz.
  destruct x as [sx| | |sx mx ex]; try discriminate Hx;
    destruct y as [sy| | |sy my ey]; try discriminate Hy;
    try discriminate Hz; clear Hx Hy Hz.
  - change (Qabs (0 / value (S754_finite sy my ey)) <= 2 ^ (-1075))%Q.
    set (v := value (S754_finite sy my ey)).
    assert (E : (0 / v == 0)%Q) by (unfold Qdiv; ring).
    rewrite E. apply Qabs_zero_le.
  - unfold Float.div, SFdiv.
    destruct (SFdiv_core_binary_located mx my ex ey)
      as (q & e' & l & t & -> & Ht & Et & Hloc & Hn).
    apply (binary_round_aux_rounded _ _ _ _ _ _ _ Hloc Hn).
    cbn [value].
    assert (Ey : ~ (inject_Z (Zpos my) == 0)%Q).
    { intros F. unfold Qeq in F. simpl in F. lia. }
    pose proof (two_pos ey) as Hpy.
    assert (E2 : (2 ^ ex == 2 ^ ey * inject_Z (2 ^ t) * 2 ^ e')%Q).
    { rewrite Zpower_Qpower by lia.
      rewrite <- !Qpower_plus by discriminate.
      now replace (ey + t + e') with ex by lia. }
    rewrite inject_Z_mult, E2.
    set (Py := (2 ^ ey)%Q) in *. set (T := inject_Z (2 ^ t)) in *.
    set (P := (2 ^ e')%Q) in *. set (a := inject_Z (Zpos mx)) in *.
    set (b := inject_Z (Zpos my)) in *.
    clearbody Py T P a b.
    destruct sx, sy; cbn [xorb]; field; split; lra.
Qed.

Lemma rounded_eq (r : float) (x y : Q) :
  (x == y)%Q -> rounded r x -> rounded r y.
Proof.
  intros E. destruct r as [s|s| |s m e]; cbn [rounded].
  - now rewrite E.
  - destruct s; now rewrite E.
  - trivial.
  - intros (H1 & H2 & H3). split; [exact H1|]. split; [exact H2|].
    now rewrite <- E.
Qed.

Lemma located_exact (m : Z) :
  0 <= m -> located (shr_record_of_loc m loc_Exact) m 1.
Proof.
  intros H. unfold located. cbn [shr_record_of_loc shr_m shr_r shr_s].
  repeat split; lia.
Qed.

Lemma mul_rounded (x y : float) :
  is_finite x = true -> is_finite y = true ->
  Float.valid x = true -> Float.valid y = true ->
  rounded (Float.mul x y) (value x * value y).
Proof.
  intros Hx Hy Vx Vy.
  destruct x as [sx| | |sx mx ex]; try discriminate Hx;
    destruct y as [sy| | |sy my ey]; try discriminate Hy; clear Hx Hy.
  - apply (rounded_eq _ 0); [cbn [value]; ring | apply Qabs_zero_le].
  - apply (rounded_eq _ 0); [cbn [value]; ring | apply Qabs_zero_le].
  - apply (rounded_eq _ 0); [cbn [value]; ring | apply Qabs_zero_le].
  - unfold Float.mul, SFmul.
    apply bounded_facts in Vx as (Hex & Hmx & Hnx).
    apply bounded_facts in Vy as (Hey & Hmy & Hny).
    apply (binary_round_aux_rounded _ _ _ _ (Zpos (mx * my)) 1).
    + apply located_exact. lia.
    + rewrite fexp_eq.
      destruct (Z.le_gt_cases (ex + ey) emin) as [C|C]; [lia|].
      assert (H52 : 2 ^ 52 <= Zpos (mx * my)).
      { rewrite Pos2Z.inj_mul.
        destruct (Z.eq_dec ex emin) as [E|E].
        - assert (2 ^ 52 <= Zpos my) by (apply Hny; lia). nia.
        - assert (2 ^ 52 <= Zpos mx) by (apply Hnx; lia). nia. }
      pose proof (Zdigits2_ge _ 52 ltac:(lia) H52). lia.
    + cbn [value]. rewrite Pos2Z.inj_mul, inject_Z_mult.
      rewrite Qpower_plus by discriminate.
      set (Px := (2 ^ ex)%Q). set (Py := (2 ^ ey)%Q).
      set (a := inject_Z (Zpos mx)). set (b := inject_Z (Zpos my)).
      change (inject_Z 1) with 1%Q.
      destruct sx, sy; cbn [xorb]; ring.
Qed.

Lemma digits2_iter_xO (p d : positive) :
  Zpos (digits2_pos (Pos.iter xO p d)) = Zpos (digits2_pos p) + Zpos d.
Proof.
  induction d as [|d IH] using Pos.peano_ind.
  - simpl. lia.
  - rewrite Pos.iter_succ. cbn [digits2_pos].
    rewrite Pos2Z.inj_succ, IH. lia.
Qed.

Lemma binary_round_rounded (s : bool) (p : positive) (e : Z) (x : Q) :
  (x == (if s then -1 else 1) * inject_Z (Zpos p) * 2 ^ e)%Q ->
  rounded (binary_round Float.prec Float.emax s p e) x.
Proof.
  intros Hx. unfold binary_round, shl_align.
  set (e' := fexp Float.prec Float.emax (Zpos (digits2_pos p) + e)).
  destruct (e' - e) as [|d|d] eqn:Ed.
  - apply (binary_round_aux_rounded _ _ _ _ (Zpos p) 1).
    + apply located_exact. lia.
    + cbn [Zdigits2]. fold e'. lia.
    + change (inject_Z 1) with 1%Q. rewrite Hx. ring.
  - apply (binary_round_aux_rounded _ _ _ _ (Zpos p) 1).
    + apply located_exact. lia.
    + cbn [Zdigits2]. fold e'. lia.
    + change (inject_Z 1) with 1%Q. rewrite Hx. ring.
  - apply (binary_round_aux_rounded _ _ _ _ (Zpos (Pos.iter xO p d)) 1).
    + apply located_exact. lia.
    + cbn [Zdigits2]. rewrite digits2_iter_xO.
      replace (Zpos (digits2_pos p) + Zpos d + e')
        with (Zpos (digits2_pos p) + e) by lia.
      fold e'. lia.
    + change (inject_Z 1) with 1%Q. rewrite Hx, pos_iter_xO.
      rewrite inject_Z_mult, (two_split e' e) by lia.
      replace (e - e') with (Zpos d) by lia. ring.
Qed.

Lemma binary_normalize_rounded (z e : Z) (x : Q) :
  (x == inject_Z z * 2 ^ e)%Q ->
  rounded (binary_normalize Float.prec Float.emax z e false) x.
Proof.
  intros Hx. destruct z as [|p|p]; cbn [binary_normalize].
  - apply (rounded_eq _ 0); [rewrite Hx; change (inject_Z 0) with 0%Q; ring|].
    apply Qabs_zero_le.
  - apply binary_round_rounded. rewrite Hx. ring.
  - apply binary_round_rounded. rewrite Hx.
    change (Zneg p) with (- Zpos p). rewrite inject_Z_opp. ring.
Qed.

Lemma rounded_exact (x : float) :
  is_finite x = true -> Float.valid x = true -> rounded x (value x).
Proof.
  intros F V. destruct x as [s| | |s m e]; try discriminate F; clear F.
  - apply Qabs_zero_le.
  - cbn [rounded]. unfold Float.valid, valid_binary in V.
    pose proof (bounded_facts _ _ V) as (He & Hm & Hn).
    unfold bounded in V. apply andb_true_iff in V as [_ V].
    apply Z.leb_le in V. change (Float.emax - Float.prec) with 971 in V.
    split; [lia|]. split.
    + destruct (Z.eq_dec e emin) as [E|E].
      * destruct (Z.le_gt_cases (2 ^ 52) (Zpos m)); [left; lia | right; lia].
      * left. split; [apply Hn; lia | exact Hm].
    + assert (E : (value (S754_finite s m e) - value (S754_finite s m e)
                   == 0)%Q) by ring.
      rewrite E. apply Qabs_zero_le.
Qed.

Lemma cond_Zopp_inject (s : bool) (z : Z) :
  (inject_Z (cond_Zopp s z) == (if s then - inject_Z z else inject_Z z))%Q.
Proof. destruct s; cbn [cond_Zopp]; [rewrite inject_Z_opp|]; reflexivity. Qed.

Lemma sub_rounded (x y : float) :
  is_finite x = true -> is_finite y = true ->
  Float.valid x = true -> Float.valid y = true ->
  rounded (Float.sub x y) (value x - value y).
Proof.
  intros Hx Hy Vx Vy.
  destruct x as [sx| | |sx mx ex]; try discriminate Hx;
    destruct y as [sy| | |sy my ey]; try discriminate Hy; clear Hx Hy.
  - apply (rounded_eq _ 0); [cbn [value]; ring|].
    unfold Float.sub, SFsub. destruct sx, sy; apply Qabs_zero_le.
  - apply (rounded_eq _ (value (S754_finite (negb sy) my ey))).
    + cbn [value]. destruct sy; cbn [negb]; ring.
    + now apply rounded_exact.
  - apply (rounded_eq _ (value (S754_finite sx mx ex))).
    + cbn [value]. ring.
    + now apply rounded_exact.
  - unfold Float.sub, SFsub. apply binary_normalize_rounded.
    unfold Z.sub at 1. rewrite inject_Z_plus, inject_Z_opp.
    rewrite !cond_Zopp_inject.
    rewrite !shl_align_value by lia. rewrite !inject_Z_mult.
    cbn [value].
    rewrite (two_split (Z.min ex ey) ex), (two_split (Z.min ex ey) ey) by lia.
    destruct sx, sy; ring.
Qed.

Lemma rounded_valid (s : bool) (m : positive) (e : Z) (x : Q) :
  rounded (S754_finite s m e) x -> Float.valid (S754_finite s m e) = true.
Proof.
  intros (He & Hc & _). unfold Float.valid, valid_binary, bounded.
  apply andb_true_iff. split.
  - unfold canonical_mantissa. apply Z.eqb_eq. rewrite fexp_eq.
    fold (Zdigits2 (Zpos m)).
    destruct Hc as [Hc|[-> Hc]].
    + rewrite (Zdigits2_unique (Zpos m) 53) by (simpl; lia). lia.
    + pose proof (Zdigits2_small (Zpos m) ltac:(lia)).
      pose proof (Zdigits2_nonneg (Zpos m)). lia.
  - apply Z.leb_le. change (Float.emax - Float.prec) with 971. lia.
Qed.

End Ops.

(** ** The float of a decimal literal *)

Section Literals.

Lemma digit_code (c : ascii) :
  Re.is_digit c = true -> Z.of_N (N_of_ascii c) - 48 = digit c.
Proof.
  destruct c as [[] [] [] [] [] [] [] []]; intros H;
    try discriminate H; reflexivity.
Qed.

Lemma digits_value_whole (s : string) :
  all_digits s = true ->
  forall acc,
    digits_value acc s = acc * 10 ^ Z.of_nat (String.length s) + whole s.
Proof.
  induction s as [|c s IH]; intros H acc.
  - simpl. lia.
  - cbn [all_digits] in H. apply andb_true_iff in H as [Hc Hs].
    cbn [digits_value whole String.length]. rewrite (IH Hs).
    rewrite (digit_code c Hc), Nat2Z.inj_succ, Z.pow_succ_r by lia. lia.
Qed.

Lemma digit_nonneg (c : ascii) : 0 <= digit c.
Proof. destruct c as [[] [] [] [] [] [] [] []]; simpl; lia. Qed.

Lemma whole_nonneg (s : string) : 0 <= whole s.
Proof.
  induction s as [|c s IH]; cbn [whole]; [lia|].
  pose proof (digit_nonneg c).
  assert (0 < 10 ^ Z.of_nat (String.length s))
    by (apply Z.pow_pos_nonneg; lia).
  nia.
Qed.

Lemma part_whole (fs : string) :
  (part fs * inject_Z (10 ^ Z.of_nat (String.length fs))
   == inject_Z (whole fs))%Q.
Proof.
  induction fs as [|c fs IH]; cbn [part whole String.length].
  - reflexivity.
  - rewrite Nat2Z.inj_succ, Z.pow_succ_r by lia.
    rewrite inject_Z_plus, !inject_Z_mult, <- IH.
    change (inject_Z 10) with 10%Q. field.
Qed.

Lemma of_decimal_rounded (n : Z) (k : nat) :
  0 <= n ->
  forall x : Q,
    (x * inject_Z (10 ^ Z.of_nat k) == inject_Z n)%Q ->
    rounded (Float.of_decimal n k) x.
Proof.
  intros Hn x Hx.
  assert (Hk : 0 < 10 ^ Z.of_nat k) by (apply Z.pow_pos_nonneg; lia).
  assert (Hkq : (0 < inject_Z (10 ^ Z.of_nat k))%Q)
    by (change 0%Q with (inject_Z 0); now rewrite <- Zlt_Qlt).
  destruct n as [|p|p]; [| |lia]; cbn [Float.of_decimal].
  - apply (rounded_eq _ 0); [|apply Qabs_zero_le].
    change (inject_Z 0) with 0%Q in Hx.
    apply (Qmult_inj_r _ _ (inject_Z (10 ^ Z.of_nat k))); [lra|].
    rewrite Hx. ring.
  - eapply rounded_eq; [|apply div_rounded; reflexivity].
    cbn [value]. rewrite Z2Pos.id by exact Hk.
    change (2 ^ 0)%Q with 1%Q.
    apply (Qmult_inj_r _ _ (inject_Z (10 ^ Z.of_nat k))); [lra|].
    rewrite Hx. field. lra.
Qed.

Lemma decimal_value_rounded (ds fr rest : string) :
  all_digits ds = true -> fraction_of fr rest ->
  rounded (decimal_value ds fr) (literal ds fr).
Proof.
  intros Hd Hf.
  assert (Hfs : match fr with
                | String _ fs => all_digits fs = true
                | EmptyString => True
                end).
  { destruct Hf as [d1 d2 r H1 H2|d1 r H1 _|r _]; cbn [all_digits];
      [rewrite H1, H2|rewrite H1|]; trivial. }
  unfold decimal_value, literal. destruct fr as [|c fs].
  - apply of_decimal_rounded.
    + rewrite (digits_value_whole ds Hd). pose proof (whole_nonneg ds). lia.
    + rewrite (digits_value_whole ds Hd). simpl Z.of_nat.
      change (inject_Z (10 ^ 0)) with 1%Q.
      replace (0 * 10 ^ Z.of_nat (String.length ds) + whole ds)
        with (whole ds) by lia.
      ring.
  - rewrite (digits_value_whole fs Hfs), (digits_value_whole ds Hd).
    replace (0 * 10 ^ Z.of_nat (String.length ds) + whole ds)
      with (whole ds) by lia.
    assert (Hk : 0 < 10 ^ Z.of_nat (String.length fs))
      by (apply Z.pow_pos_nonneg; lia).
    apply of_decimal_rounded.
    + pose proof (whole_nonneg ds). pose proof (whole_nonneg fs). nia.
    + rewrite inject_Z_plus, inject_Z_mult, <- (part_whole fs). ring.
Qed.

End Literals.

(** The literal of the example denotes 12345/100. *)
Example literal_123_45 : (literal "123" ".45" == 12345 # 100)%Q.
Proof. reflexivity. Qed.

(** * The extractor returns the first match, as a float *)

(** C6: on every payload of the provider's shape the extractor reads the
    snippets joined in order, returns absent when the text holds no
    currency match, and otherwise returns a float that is the decimal
    number of the leftmost match rounded to binary64 (within half a
    unit in the last place of what the digits denote); one of the two is
    always the case.  The snippet [price rose to $123.45 yesterday]
    gives the float [0x1.edccccccccccdp+6], the binary64 nearest to
    123.45, and an empty result list gives absent. *)
Theorem extract_price_or_dividend_first_match (payload : json) :
  wf_payload payload = true ->
  let text := String.concat " " (snippets (organic_entries payload)) in
  (no_currency text -> extract_price_or_dividend payload = Ok None) /\
  (forall ds fr, first_currency text ds fr ->
     exists v : float,
       extract_price_or_dividend payload = Ok (Some v) /\
       rounded v (literal ds fr) /\
       v = decimal_value ds fr) /\
  (no_currency text \/ exists ds fr, first_currency text ds fr) /\
  extract_price_or_dividend
    (Collaborators.snippet_payload ["price rose to $123.45 yesterday"])
  = Ok (Some (S754_finite false 8687021468732621 (-46))) /\
  extract_price_or_dividend (JObj [("organic_results", JArr [])]) = Ok None.
Proof.
  intros Hwf text.
  destruct (extract_of_text payload text (full_text_wf _ Hwf)) as [Hn Hs].
  split; [exact Hn|]. split.
  - intros ds fr Hfc. exists (decimal_value ds fr).
    split; [now apply Hs|]. split; [|reflexivity].
    destruct Hfc as (pre & rest & _ & _ & _ & Hd & _ & Hf).
    exact (decimal_value_rounded ds fr rest Hd Hf).
  - split; [apply currency_cases|]. split; reflexivity.
Qed.

(** On the example snippet: the leftmost match is [$123.45], which
    denotes 12345/100, and the float returned is that number rounded. *)
Lemma extract_price_or_dividend_first_match_witness :
  let payload :=
    Collaborators.snippet_payload ["price rose to $123.45 yesterday"] in
  wf_payload payload = true /\
  first_currency (String.concat " " (snippets (organic_entries payload)))
    "123" ".45" /\
  (literal "123" ".45" == 12345 # 100)%Q /\
  extract_price_or_dividend payload
  = Ok (Some (S754_finite false 8687021468732621 (-46))) /\
  rounded (S754_finite false 8687021468732621 (-46)) (12345 # 100).
Proof.
  intros payload. split; [reflexivity|].
  split; [exact first_currency_example|].
  split; [reflexivity|]. split; [reflexivity|].
  destruct (extract_price_or_dividend_first_match payload eq_refl)
    as (_ & H & _).
  destruct (H "123" ".45" first_currency_example) as (v & Hv & Hr & _).
  change (extract_price_or_dividend payload)
    with (Ok (Some (S754_finite false 8687021468732621 (-46)))) in Hv.
  injection Hv as <-. exact Hr.
Defined.

(** * The price-return endpoint *)

(** The constant [100] of the endpoint is the float of value 100. *)
Lemma value_hundred :
  Float.of_Z 100 = S754_finite false 7036874417766400 (-46) /\
  (value (S754_finite false 7036874417766400 (-46)) == 100)%Q.
Proof. split; reflexivity. Qed.

Lemma is_finite_valid (x : float) (y : Q) :
  is_finite x = true -> rounded x y -> Float.valid x = true.
Proof.
  destruct x as [s| | |s m e]; intros F H; try discriminate F.
  - reflexivity.
  - exact (rounded_valid _ _ _ _ H).
Qed.

(** C8: with a non-zero initial price the endpoint returns a float
    under the key [price_return], a function of that one pair, and the
    service gives it for the request the session sends for a ticker.
    For finite prices that float is the binary64 evaluation of
    [(final - initial) / initial * 100]: the difference of the two
    prices rounded, that float divided by the initial price and
    rounded, and that float times 100 rounded, each rounding within
    half a unit in the last place; a finite answer has gone through all
    three.  From 100 to 120 the answer is the float of value 20. *)
Theorem calc_price_return_value (initial final : float) (h : history) :
  Float.is_zero initial = false ->
  (exists d q r : float,
    Server.calc_price_return
      {| Server.PriceReturnInput.initial_price := initial;
         Server.PriceReturnInput.final_price := final |}
    = Ok (JObj [("price_return", JFloat r)]) /\
    Collaborators.local_service h "price-return"
      (JObj [("initial_price", number (Some initial));
             ("final_price", number (Some final))])
    = JObj [("price_return", JFloat r)] /\
    (is_finite initial = true -> Float.valid initial = true ->
     is_finite final = true -> Float.valid final = true ->
     rounded d (value final - value initial) /\
     (is_finite d = true -> rounded q (value d / value initial)) /\
     (is_finite q = true -> rounded r (value q * 100)) /\
     (is_finite r = true -> is_finite d = true /\ is_finite q = true))) /\
  Server.calc_price_return
    {| Server.PriceReturnInput.initial_price :=
         S754_finite false 7036874417766400 (-46);
       Server.PriceReturnInput.final_price :=
         S754_finite false 8444249301319680 (-46) |}
  = Ok (JObj [("price_return",
               JFloat (S754_finite false 5629499534213120 (-48)))]).
Proof.
  intros Hnz. split; [|reflexivity].
  set (d := Float.sub final initial).
  set (q := Float.div d initial).
  set (r := Float.mul q (Float.of_Z 100)).
  exists d, q, r.
  assert (E : Server.calc_price_return
                {| Server.PriceReturnInput.initial_price := initial;
                   Server.PriceReturnInput.final_price := final |}
              = Ok (JObj [("price_return", JFloat r)])).
  { unfold Server.calc_price_return, Server.truediv. simpl.
    now rewrite Hnz. }
  split; [exact E|]. split.
  { unfold Collaborators.local_service. simpl. now rewrite E. }
  intros Fi Vi Ff Vf.
  assert (Hd : rounded d (value final - value initial))
    by now apply sub_rounded.
  assert (Hq : is_finite d = true -> rounded q (value d / value initial))
    by (intros Fd; now apply div_rounded).
  assert (Fqd : is_finite q = true -> is_finite d = true).
  { unfold q. destruct d as [s|s| |s m e]; try reflexivity;
      destruct initial as [si|si| |si mi ei]; try discriminate Fi;
      try discriminate Hnz; intros F; discriminate F. }
  split; [exact Hd|]. split; [exact Hq|]. split.
  - intros Fq. destruct value_hundred as [E100 V100].
    apply (rounded_eq _ (value q * value (Float.of_Z 100))).
    + rewrite E100, V100. reflexivity.
    + apply mul_rounded; try reflexivity; try exact Fq.
      exact (is_finite_valid q _ Fq (Hq (Fqd Fq))).
  - intros Fr. assert (Fq : is_finite q = true).
    { revert Fr. unfold r. destruct value_hundred as [-> _].
      destruct q as [s|s| |s m e]; try reflexivity;
        intros F; discriminate F. }
    split; [exact (Fqd Fq) | exact Fq].
Qed.

(** From 100 to 120 the endpoint answers the float of value 20. *)
Lemma calc_price_return_value_witness :
  let initial := S754_finite false 7036874417766400 (-46) in
  let final := S754_finite false 8444249301319680 (-46) in
  Float.is_zero initial = false /\
  (value initial == 100)%Q /\ (value final == 120)%Q /\
  Server.calc_price_return
    {| Server.PriceReturnInput.initial_price := initial;
       Server.PriceReturnInput.final_price := final |}
  = Ok (JObj [("price_return",
               JFloat (S754_finite false 5629499534213120 (-48)))]) /\
  (value (S754_finite false 5629499534213120 (-48)) == 20)%Q /\
  exists d q r : float,
    Server.calc_price_return
      {| Server.PriceReturnInput.initial_price := initial;
         Server.PriceReturnInput.final_price := final |}
    = Ok (JObj [("price_return", JFloat r)]) /\
    Collaborators.local_service [] "price-return"
      (JObj [("initial_price", number (Some initial));
             ("final_price", number (Some final))])
    = JObj [("price_return", JFloat r)] /\
    rounded d (value final - value initial) /\
    (is_finite d = true -> rounded q (value d / value initial)) /\
    (is_finite q = true -> rounded r (value q * 100)) /\
    (is_finite r = true -> is_finite d = true /\ is_finite q = true).
Proof.
  intros initial final.
  do 5 (split; [reflexivity|]).
  destruct (calc_price_return_value initial final [] eq_refl)
    as ((d & q & r & E & L & H) & _).
  exists d, q, r. split; [exact E|]. split; [exact L|].
  exact (H eq_refl eq_refl eq_refl eq_refl).
Defined.

(** From 100 to 107 the exact return is 7, and the endpoint answers
    [7.000000000000001], the float one unit in the last place above 7. *)
Lemma calc_price_return_not_exact :
  let initial := S754_finite false 7036874417766400 (-46) in
  let final := S754_finite false 7529455627010048 (-46) in
  (value initial == 100)%Q /\ (value final == 107)%Q /\
  ((value final - value initial) / value initial * 100 == 7)%Q /\
  Server.calc_price_return
    {| Server.PriceReturnInput.initial_price := initial;
       Server.PriceReturnInput.final_price := final |}
  = Ok (JObj [("price_return",
               JFloat (S754_finite false 7881299347898369 (-50)))]) /\
  ~ (value (S754_finite false 7881299347898369 (-50)) == 7)%Q.
Proof.
  intros initial final.
  do 4 (split; [reflexivity|]).
  intros F. unfold Qeq in F. vm_compute in F. discriminate F.
Qed.
